(** * F1TENTH 2D map to 3D mesh converter: a shallow embedding of
    [map_to_3d.py] and the properties of its conversion pipeline.

    Conventions of the embedding.
    - A Python [float] is an exact rational ([Q]).  Comparisons of finite
      floats are exact, so the thresholding logic is the program's; the
      rounding of [1.0 - t], [p / 255.0] and of the coordinate arithmetic is
      not modelled.  The thresholding itself ([threshold_map]) takes its
      thresholds from [pyfloat], which adds the infinities and NaN; a
      converter object holds finite thresholds.
    - A 2-D numpy array is a list of rows ([list (list A)]).
    - An exception is a value of [exn] carried by the [result] monad.
    - Progress messages ([print]) are not part of the model. *)

From Stdlib Require Import ZArith QArith Lia Lqa Ascii String.
From stdpp Require Import base list sorting.

Local Open Scope Z_scope.

(** ** Exceptions *)

Inductive exn : Type :=
| KeyError (key : string)
| FileNotFoundError
| IndexError.

Inductive result (A : Type) : Type :=
| Ok (a : A)
| Raise (e : exn).
Arguments Ok {A} a.
Arguments Raise {A} e.

#[global] Instance result_ret : MRet result := fun _ a => Ok a.
#[global] Instance result_bind : MBind result := fun _ _ k m =>
  match m with
  | Ok a => k a
  | Raise e => Raise e
  end.

(** ** numpy: the array operations the converter uses *)

Abbreviation ndarray A := (list (list A)) (only parsing).

Module np.

(** [arr.shape] of a 2-D array: (rows, columns). *)
Definition shape {A} (arr : ndarray A) : Z * Z :=
  (Z.of_nat (length arr), Z.of_nat (length (hd [] arr))).

(** All rows of an array have the same length. *)
Definition is_array {A} (height width : nat) (arr : ndarray A) : Prop :=
  length arr = height /\ Forall (fun row => length row = width) arr.

Definition ones (height width : nat) : ndarray Z :=
  replicate height (replicate width 1).

Definition zeros_like {A} (arr : ndarray A) : ndarray Z :=
  fmap (M := list) (fmap (M := list) (fun _ => 0)) arr.

(** Elementwise operations (broadcast against a scalar or pointwise). *)
Definition map2d {A B} (f : A -> B) (arr : ndarray A) : ndarray B :=
  fmap (M := list) (fmap (M := list) f) arr.

Definition zip2d {A B C} (f : A -> B -> C)
    (a : ndarray A) (b : ndarray B) : ndarray C :=
  zip_with (zip_with f) a b.

(** [arr[mask] = val]: boolean-mask assignment. *)
Definition setitem_mask {A} (arr : ndarray A) (mask : ndarray bool)
    (val : A) : ndarray A :=
  zip2d (fun a (m : bool) => if m then val else a) arr mask.

(** [arr.astype(bool)] on an integer array: nonzero is [True]. *)
Definition astype_bool (arr : ndarray Z) : ndarray bool :=
  map2d (fun x => negb (x =? 0)) arr.

(** [arr[r, c]], [None] outside the array. *)
Definition item {A} (arr : ndarray A) (r c : nat) : option A :=
  arr !! r ≫= fun row => row !! c.

(** Column indices of the [True] entries of a row, left to right. *)
Fixpoint true_indices (c : Z) (row : list bool) : list Z :=
  match row with
  | [] => []
  | b :: rest => (if b then [c] else []) ++ true_indices (c + 1) rest
  end.

Fixpoint where_from (r : Z) (mask : ndarray bool) : list (Z * Z) :=
  match mask with
  | [] => []
  | row :: rest =>
      ((fun c => (r, c)) <$> true_indices 0 row) ++ where_from (r + 1) rest
  end.

(** The index arrays of [np.where(mask)], zipped: the (row, col) pairs of
    the [True] entries in row-major order. *)
Definition where_ (mask : ndarray bool) : list (Z * Z) := where_from 0 mask.

End np.

(** Boolean comparisons on [Q]. *)
Definition Qlt_bool (x y : Q) : bool :=
  (Qnum x * QDen y <? Qnum y * QDen x)%Z.

(** A float value as YAML can supply one: a finite number, an infinity
    ([.inf], [-.inf]) or NaN ([.nan]).  NaN compares [False] with
    everything. *)
Inductive pyfloat : Type :=
| Fin (q : Q)
| PosInf
| NegInf
| NaN.

(** [a <= b] and [a < b] on floats. *)
Definition float_le (a b : pyfloat) : bool :=
  match a, b with
  | NaN, _ | _, NaN => false
  | NegInf, _ | _, PosInf => true
  | Fin x, Fin y => Qle_bool x y
  | _, _ => false
  end.

Definition float_lt (a b : pyfloat) : bool :=
  match a, b with
  | NaN, _ | _, NaN => false
  | NegInf, NegInf | PosInf, PosInf => false
  | NegInf, _ | _, PosInf => true
  | Fin x, Fin y => Qlt_bool x y
  | _, _ => false
  end.

(** [1.0 - t]. *)
Definition one_minus (t : pyfloat) : pyfloat :=
  match t with
  | Fin q => Fin (1 - q)%Q
  | PosInf => NegInf
  | NegInf => PosInf
  | NaN => NaN
  end.

(** ** The converter object *)

(** The YAML metadata: a mapping in which each key may be absent.  A key
    that is present holds a value of the expected kind: a number for
    [resolution] and the thresholds, a list of numbers for [origin]. *)
Record map_metadata : Type := {
  md_resolution : option Q;
  md_origin : option (list Q);
  md_occupied_thresh : option Q;
  md_free_thresh : option Q
}.

(** The fields of a [Map3DConverter] instance.  [map_png] stands for what
    [cv2.imread(self.map_png_path, IMREAD_GRAYSCALE)] returns: the 8-bit
    image, or [None] when the file cannot be read. *)
Record Map3DConverter : Type := {
  map_png : option (ndarray Z);
  wall_height : Q;
  resolution : Q;
  origin : list Q;
  occupied_thresh : Q;
  free_thresh : Q
}.

(** [dict[key]] and [dict.get(key, default)]. *)
Definition getitem {A} (key : string) (field : option A) : result A :=
  match field with
  | Some a => Ok a
  | None => Raise (KeyError key)
  end.

Definition __init__ (png : option (ndarray Z)) (map_metadata : map_metadata)
    (wall_height : Q) : result Map3DConverter :=
  resolution ← getitem "resolution" (md_resolution map_metadata);
  origin ← getitem "origin" (md_origin map_metadata);
  mret {| map_png := png;
          wall_height := wall_height;
          resolution := resolution;
          origin := take 2 origin;
          occupied_thresh := default (45 # 100)%Q (md_occupied_thresh map_metadata);
          free_thresh := default (196 # 1000)%Q (md_free_thresh map_metadata) |}.

(** ** Grid classifier: [load_and_process_map] *)

Definition Occupied : Z := 1.
Definition Free : Z := 0.

Definition normalize (p : Z) : Q := (inject_Z p / 255)%Q.

(** The three masked assignments, each from the grid before it to the grid
    after it, for thresholds that may be any float. *)

(** Line 59: [occupancy_grid[normalized <= (1.0 - occupied_thresh)] = 1]. *)
Definition assign_occupied (occupied_thresh : pyfloat) (normalized : ndarray Q)
    (occupancy_grid : ndarray Z) : ndarray Z :=
  np.setitem_mask occupancy_grid
    (np.map2d (fun v => float_le (Fin v) (one_minus occupied_thresh)) normalized)
    Occupied.

(** Line 60: [occupancy_grid[normalized >= (1.0 - free_thresh)] = 0]. *)
Definition assign_free (free_thresh : pyfloat) (normalized : ndarray Q)
    (occupancy_grid : ndarray Z) : ndarray Z :=
  np.setitem_mask occupancy_grid
    (np.map2d (fun v => float_le (one_minus free_thresh) (Fin v)) normalized)
    Free.

(** Lines 61-62: the unknown band is set to 1. *)
Definition assign_unknown (occupied_thresh free_thresh : pyfloat)
    (normalized : ndarray Q) (occupancy_grid : ndarray Z) : ndarray Z :=
  np.setitem_mask occupancy_grid
    (np.zip2d andb
       (np.map2d (fun v => float_lt (one_minus occupied_thresh) (Fin v)) normalized)
       (np.map2d (fun v => float_lt (Fin v) (one_minus free_thresh)) normalized))
    Occupied.

(** Lines 45-64, with what [cv2.imread] returned and the two thresholds as
    arguments. *)
Definition threshold_map (map_img : option (ndarray Z))
    (occupied_thresh free_thresh : pyfloat) : result (ndarray Z) :=
  match map_img with
  | None => Raise FileNotFoundError
  | Some map_img =>
      let occupancy_grid := np.zeros_like map_img in
      let normalized := np.map2d normalize map_img in
      let occupancy_grid :=
        assign_occupied occupied_thresh normalized occupancy_grid in
      let occupancy_grid :=
        assign_free free_thresh normalized occupancy_grid in
      let occupancy_grid :=
        assign_unknown occupied_thresh free_thresh normalized occupancy_grid in
      Ok occupancy_grid
  end.

Definition load_and_process_map (self : Map3DConverter) : result (ndarray Z) :=
  threshold_map (map_png self)
                (Fin (occupied_thresh self)) (Fin (free_thresh self)).

(** What each of the three masked assignments (lines 59-62) does to a
    single cell of normalized intensity [v]. *)
Definition occupied_rule (occupied_thresh v : Q) (cell : Z) : Z :=
  if Qle_bool v (1 - occupied_thresh)%Q then Occupied else cell.

Definition free_rule (free_thresh v : Q) (cell : Z) : Z :=
  if Qle_bool (1 - free_thresh)%Q v then Free else cell.

Definition unknown_rule (occupied_thresh free_thresh v : Q) (cell : Z) : Z :=
  if Qlt_bool (1 - occupied_thresh)%Q v && Qlt_bool v (1 - free_thresh)%Q
  then Occupied else cell.

(** The final value of a cell: the three rules in program order, starting
    from the zero of [zeros_like]. *)
Definition classify (occupied_thresh free_thresh v : Q) : Z :=
  unknown_rule occupied_thresh free_thresh v
    (free_rule free_thresh v
       (occupied_rule occupied_thresh v 0)).

(** The final value of a cell for thresholds that may be any float. *)
Definition classify_at (occupied_thresh free_thresh : pyfloat) (v : Q) : Z :=
  let cell := 0 in
  let cell := if float_le (Fin v) (one_minus occupied_thresh)
              then Occupied else cell in
  let cell := if float_le (one_minus free_thresh) (Fin v) then Free else cell in
  let cell := if float_lt (one_minus occupied_thresh) (Fin v)
                 && float_lt (Fin v) (one_minus free_thresh)
              then Occupied else cell in
  cell.

(** The same converter with another [occupied_thresh]. *)
Definition with_occupied_thresh (t : Q) (self : Map3DConverter) : Map3DConverter :=
  {| map_png := map_png self;
     wall_height := wall_height self;
     resolution := resolution self;
     origin := origin self;
     occupied_thresh := t;
     free_thresh := free_thresh self |}.

(** ** scipy.ndimage: binary erosion *)

Module ndimage.

(** The value an erosion reads at integer position (r, c): the input
    inside the array, [border_value] outside. *)
Definition padded (border_value : bool) (input : ndarray bool)
    (r c : Z) : bool :=
  if (0 <=? r) && (0 <=? c)
  then default border_value (np.item input (Z.to_nat r) (Z.to_nat c))
  else border_value.

(** Offsets of the set entries of a structuring element from its centre
    ([origin=0]: the centre is at index [size // 2] on each axis). *)
Definition structure_offsets (structure : ndarray bool) : list (Z * Z) :=
  let '(h, w) := np.shape structure in
  (fun rc => (rc.1 - h / 2, rc.2 - w / 2)) <$> np.where_ structure.

(** [binary_erosion(input, structure=structure)] with the defaults
    [iterations=1], [border_value=0], [origin=0]: an output cell is set
    when the input is set under every set entry of the structuring
    element centred on it.  Nonzero input and structure entries count as
    set. *)
Definition binary_erosion (input structure : ndarray Z) : ndarray bool :=
  let input := np.astype_bool input in
  let offsets := structure_offsets (np.astype_bool structure) in
  imap (fun r row =>
          imap (fun c (_ : bool) =>
                  forallb (fun d => padded false input
                                      (Z.of_nat r + d.1) (Z.of_nat c + d.2))
                          offsets)
               row)
       input.

End ndimage.

(** ** trimesh: indexed triangle meshes *)

Record vec3 : Type := Vec3 { vx : Q; vy : Q; vz : Q }.

Definition vertex : Type := vec3.
Definition face : Type := (Z * Z * Z)%type.

Module trimesh.

(** [Trimesh(vertices=..., faces=...)].  The constructor stores the two
    arrays; the library's merging of coincident vertices is not modelled, so
    a mesh stands for the constructed object only where its vertices are
    pairwise distinct ([all_distinct]). *)
Record Trimesh : Type := { vertices : list vertex; faces : list face }.

Definition shift (n : Z) (f : face) : face :=
  (f.1.1 + n, f.1.2 + n, f.2 + n).

(** [a + b]: the vertex arrays are concatenated and the face indices of
    [b] are offset by the number of vertices of [a]. *)
Definition add (a b : Trimesh) : Trimesh :=
  {| vertices := vertices a ++ vertices b;
     faces := faces a ++ (shift (Z.of_nat (length (vertices a))) <$> faces b) |}.

Definition vsub (a b : vec3) : vec3 :=
  Vec3 (vx a - vx b) (vy a - vy b) (vz a - vz b)%Q.

Definition cross (a b : vec3) : vec3 :=
  Vec3 (vy a * vz b - vz a * vy b)
       (vz a * vx b - vx a * vz b)
       (vx a * vy b - vy a * vx b)%Q.

Definition dot (a b : vec3) : Q :=
  (vx a * vx b + vy a * vy b + vz a * vz b)%Q.

Definition corner (vs : list vertex) (i : Z) : option vertex :=
  if 0 <=? i then vs !! Z.to_nat i else None.

(** The normal of a triangle as its winding gives it (right-hand rule):
    the cross product of its two edges out of the first corner, as in
    [face_normals]. *)
Definition face_normal (vs : list vertex) (f : face) : option vec3 :=
  a ← corner vs f.1.1;
  b ← corner vs f.1.2;
  c ← corner vs f.2;
  Some (cross (vsub b a) (vsub c a)).

End trimesh.

(** ** Wall synthesis: [create_wall_mesh] *)

(** [seq[i]], raising [IndexError] out of range. *)
Definition getindex {A} (seq : list A) (i : nat) : result A :=
  match seq !! i with
  | Some a => Ok a
  | None => Raise IndexError
  end.

(** The boundary mask (lines 72-73). *)
Definition wall_edges (occupancy_grid : ndarray Z) : ndarray bool :=
  let eroded := ndimage.binary_erosion occupancy_grid (np.ones 3 3) in
  np.zip2d andb (np.astype_bool occupancy_grid) (np.map2d negb eroded).

Definition wall_pixels (occupancy_grid : ndarray Z) : list (Z * Z) :=
  np.where_ (wall_edges occupancy_grid).

Definition total_pixels (occupancy_grid : ndarray Z) : nat :=
  length (wall_pixels occupancy_grid).

Definition cube_vertices (x_min x_max y_min y_max z_min z_max : Q) : list vertex :=
  [ Vec3 x_min y_min z_min;
    Vec3 x_max y_min z_min;
    Vec3 x_max y_max z_min;
    Vec3 x_min y_max z_min;
    Vec3 x_min y_min z_max;
    Vec3 x_max y_min z_max;
    Vec3 x_max y_max z_max;
    Vec3 x_min y_max z_max ].

Definition cube_faces (base_idx : Z) : list face :=
  [ (base_idx + 0, base_idx + 1, base_idx + 2);
    (base_idx + 0, base_idx + 2, base_idx + 3);
    (base_idx + 4, base_idx + 6, base_idx + 5);
    (base_idx + 4, base_idx + 7, base_idx + 6);
    (base_idx + 0, base_idx + 4, base_idx + 5);
    (base_idx + 0, base_idx + 5, base_idx + 1);
    (base_idx + 3, base_idx + 2, base_idx + 6);
    (base_idx + 3, base_idx + 6, base_idx + 7);
    (base_idx + 0, base_idx + 3, base_idx + 7);
    (base_idx + 0, base_idx + 7, base_idx + 4);
    (base_idx + 1, base_idx + 5, base_idx + 6);
    (base_idx + 1, base_idx + 6, base_idx + 2) ].

(** The variables the loop updates. *)
Record wall_state : Type := {
  vertices : list vertex;
  faces : list face;
  vertex_count : Z
}.

(** The cuboid of one wall pixel (lines 91-111). *)
Definition pixel_cube (self : Map3DConverter) (height : Z) (pixel : Z * Z)
    : result (list vertex) :=
  let '(row, col) := pixel in
  ox ← getindex (origin self) 0;
  let world_x := (ox + inject_Z col * resolution self)%Q in
  oy ← getindex (origin self) 1;
  let world_y := (oy + inject_Z (height - row - 1) * resolution self)%Q in
  let cube_size := (resolution self * (9 # 10))%Q in
  let '(x_min, x_max) := (world_x, (world_x + cube_size)%Q) in
  let '(y_min, y_max) := (world_y, (world_y + cube_size)%Q) in
  let '(z_min, z_max) := (0%Q, wall_height self) in
  mret (cube_vertices x_min x_max y_min y_max z_min z_max).

(** One iteration of the loop over the wall pixels (lines 85-139). *)
Definition wall_body (self : Map3DConverter) (height : Z)
    (st : wall_state) (pixel : Z * Z) : result wall_state :=
  cube ← pixel_cube self height pixel;
  let base_idx := vertex_count st in
  mret {| vertices := vertices st ++ cube;
          faces := faces st ++ cube_faces base_idx;
          vertex_count := vertex_count st + 8 |}.

Fixpoint for_each {S A} (body : S -> A -> result S) (st : S) (items : list A)
    : result S :=
  match items with
  | [] => mret st
  | item :: rest => st' ← body st item; for_each body st' rest
  end.

(** The vertex and face lists when the loop ends (line 141), before any
    mesh object is built from them. *)
Definition wall_geometry (self : Map3DConverter) (occupancy_grid : ndarray Z)
    : result wall_state :=
  let '(height, width) := np.shape occupancy_grid in
  for_each (wall_body self height)
           {| vertices := []; faces := []; vertex_count := 0 |}
           (wall_pixels occupancy_grid).

(** ** Floor synthesis: [create_floor_mesh] *)

Definition floor_faces : list face := [ (0, 1, 2); (0, 2, 3) ].

Definition floor_vertices (x_min x_max y_min y_max : Q) : list vertex :=
  [ Vec3 x_min y_min 0;
    Vec3 x_max y_min 0;
    Vec3 x_max y_max 0;
    Vec3 x_min y_max 0 ].

Definition create_floor_mesh (self : Map3DConverter)
    (occupancy_grid : ndarray Z) : result trimesh.Trimesh :=
  let '(height, width) := np.shape occupancy_grid in
  x_min ← getindex (origin self) 0;
  y_min ← getindex (origin self) 1;
  ox ← getindex (origin self) 0;
  let x_max := (ox + inject_Z width * resolution self)%Q in
  oy ← getindex (origin self) 1;
  let y_max := (oy + inject_Z height * resolution self)%Q in
  mret {| trimesh.vertices := floor_vertices x_min x_max y_min y_max;
          trimesh.faces := floor_faces |}.

(** ** Assembly: [convert_to_3d] *)

Section Pipeline.

(** The two in-place clean-up passes of the mesh library that
    [create_wall_mesh] calls; they are the library's and are kept
    abstract. *)
Variable remove_duplicate_faces : trimesh.Trimesh -> trimesh.Trimesh.
Variable fix_normals : trimesh.Trimesh -> trimesh.Trimesh.

(** [None] is the "no wall pixels" return of line 146. *)
Definition create_wall_mesh (self : Map3DConverter)
    (occupancy_grid : ndarray Z) : result (option trimesh.Trimesh) :=
  st ← wall_geometry self occupancy_grid;
  if decide (length (vertices st) = 0%nat) then mret None
  else
    let mesh := {| trimesh.vertices := vertices st;
                   trimesh.faces := faces st |} in
    let mesh := remove_duplicate_faces mesh in
    let mesh := fix_normals mesh in
    mret (Some mesh).

(** The mesh [convert_to_3d] hands to the exporter. *)
Definition convert_to_3d (self : Map3DConverter) : result trimesh.Trimesh :=
  occupancy_grid ← load_and_process_map self;
  wall_mesh ← create_wall_mesh self occupancy_grid;
  floor_mesh ← create_floor_mesh self occupancy_grid;
  let combined_mesh :=
    match wall_mesh with
    | Some wall_mesh => trimesh.add wall_mesh floor_mesh
    | None => floor_mesh
    end in
  mret combined_mesh.

End Pipeline.

(** ** Vocabulary of the statements *)

(** Cell (r, c) lies in the grid and holds a nonzero (Occupied) value;
    positions outside the grid never do. *)
Definition occupied_at (grid : ndarray Z) (r c : Z) : Prop :=
  0 <= r /\ 0 <= c /\
  exists x, np.item grid (Z.to_nat r) (Z.to_nat c) = Some x /\ x <> 0.

(** Cell (r, c) survives a full 3x3 erosion: it and its eight neighbours
    are Occupied. *)
Definition interior (grid : ndarray Z) (r c : Z) : Prop :=
  forall dr dc, -1 <= dr <= 1 -> -1 <= dc <= 1 ->
                occupied_at grid (r + dr) (c + dc).

(** Cell (r, c) is set in the boundary mask. *)
Definition is_boundary (grid : ndarray Z) (r c : nat) : Prop :=
  np.item (wall_edges grid) r c = Some true.

(** The coordinate mapping of the wall synthesizer, for an origin
    [(ox, oy)], resolution [r] and a grid of [grid_rows] rows. *)
Definition world_x (ox r : Q) (col : Z) : Q := (ox + inject_Z col * r)%Q.

Definition world_y (oy r : Q) (grid_rows row : Z) : Q :=
  (oy + inject_Z (grid_rows - row - 1) * r)%Q.

Definition cube_size (r : Q) : Q := (r * (9 # 10))%Q.

(** The eight corners of the box
    [world_x, world_x + cube_size] x [world_y, world_y + cube_size] x [0, h]
    of a pixel, in the order of [cube_vertices]. *)
Definition cuboid (ox oy r h : Q) (grid_rows : Z) (pixel : Z * Z) : list vertex :=
  let wx := world_x ox r pixel.2 in
  let wy := world_y oy r grid_rows pixel.1 in
  cube_vertices wx (wx + cube_size r) wy (wy + cube_size r) 0 h.

Definition cuboid_centre (ox oy r h : Q) (grid_rows : Z) (pixel : Z * Z) : vec3 :=
  let wx := world_x ox r pixel.2 in
  let wy := world_y oy r grid_rows pixel.1 in
  Vec3 (wx + cube_size r / 2) (wy + cube_size r / 2) (h / 2)%Q.

(** A point lies in the axis-aligned box [lo, hi]. *)
Definition in_box (lo hi p : vec3) : Prop :=
  (vx lo <= vx p <= vx hi /\ vy lo <= vy p <= vy hi /\ vz lo <= vz p <= vz hi)%Q.

(** The face lists the loop appends, one block of 12 per pixel, the first
    block indexing from [base_idx]. *)
Fixpoint faces_from {A} (base_idx : Z) (pixels : list A) : list face :=
  match pixels with
  | [] => []
  | _ :: rest => cube_faces base_idx ++ faces_from (base_idx + 8) rest
  end.

Definition vec3_eq (a b : vec3) : Prop :=
  (vx a == vx b /\ vy a == vy b /\ vz a == vz b)%Q.

(** Which side of a triangle its winding faces, seen from a reference point
    [centre]: the normal of the winding dotted with the vector from [centre]
    to the triangle.  Positive: the normal points away from [centre];
    negative: towards it. *)
Definition face_side (vs : list vertex) (centre : vec3) (f : face) : option Q :=
  a ← trimesh.corner vs f.1.1;
  n ← trimesh.face_normal vs f;
  Some (trimesh.dot n (trimesh.vsub a centre)).

Definition wound_outward (vs : list vertex) (centre : vec3) (f : face) : Prop :=
  exists s, face_side vs centre f = Some s /\ (0 < s)%Q.

Definition wound_inward (vs : list vertex) (centre : vec3) (f : face) : Prop :=
  exists s, face_side vs centre f = Some s /\ (s < 0)%Q.

(** The normal of face [f] is [n], up to equality of rationals. *)
Definition has_normal (vs : list vertex) (f : face) (n : vec3) : Prop :=
  exists n', trimesh.face_normal vs f = Some n' /\ vec3_eq n' n.

(** The normals of the twelve triangles of a cuboid of side [cs] and height
    [h], in the order of [cube_faces]: each points into the cuboid. *)
Definition inward_normals (cs h : Q) : list vec3 :=
  [ Vec3 0 0 (cs * cs); Vec3 0 0 (cs * cs);
    Vec3 0 0 (- (cs * cs)); Vec3 0 0 (- (cs * cs));
    Vec3 0 (cs * h) 0; Vec3 0 (cs * h) 0;
    Vec3 0 (- (cs * h)) 0; Vec3 0 (- (cs * h)) 0;
    Vec3 (cs * h) 0 0; Vec3 (cs * h) 0 0;
    Vec3 (- (cs * h)) 0 0; Vec3 (- (cs * h)) 0 0 ]%Q.

(** The signed area test of point [p] against the directed edge [a -> b],
    in the XY plane: non-negative when [p] is on the left of the edge. *)
Definition edge_side (a b p : vec3) : Q :=
  ((vx b - vx a) * (vy p - vy a) - (vy b - vy a) * (vx p - vx a))%Q.

(** [p] lies in the (counter-clockwise) triangle [f] of the mesh, seen from
    above. *)
Definition triangle_covers (vs : list vertex) (f : face) (p : vec3) : Prop :=
  exists a b c,
    trimesh.corner vs f.1.1 = Some a /\
    trimesh.corner vs f.1.2 = Some b /\
    trimesh.corner vs f.2 = Some c /\
    (0 <= edge_side a b p)%Q /\ (0 <= edge_side b c p)%Q /\
    (0 <= edge_side c a p)%Q.

Definition mesh_covers (mesh : trimesh.Trimesh) (p : vec3) : Prop :=
  Exists (fun f => triangle_covers (trimesh.vertices mesh) f p)
         (trimesh.faces mesh).

(** No two vertices of the list coincide, so that a merge of coincident
    vertices, as the mesh constructor performs by default, has nothing to
    merge. *)
Definition all_distinct (vs : list vertex) : Prop :=
  forall i j a b, vs !! i = Some a -> vs !! j = Some b -> vec3_eq a b -> i = j.

(** ** Sample inputs for the examples *)

(** A 2x2 map: one black, one white and two grey pixels. *)
Definition demo : Map3DConverter :=
  {| map_png := Some [[0; 255]; [204; 140]]; wall_height := 1; resolution := 1;
     origin := [0; 0]%Q;
     occupied_thresh := (45 # 100)%Q; free_thresh := (196 # 1000)%Q |}.

(** A map of bright pixels only. *)
Definition all_free : Map3DConverter :=
  {| map_png := Some [[255; 254]; [230; 255]]; wall_height := 1; resolution := 1;
     origin := [0; 0]%Q;
     occupied_thresh := (45 # 100)%Q; free_thresh := (196 # 1000)%Q |}.

(** Metadata with a negative resolution and default thresholds. *)
Definition negative_resolution : map_metadata :=
  {| md_resolution := Some (-1)%Q; md_origin := Some [0; 0; 0]%Q;
     md_occupied_thresh := None; md_free_thresh := None |}.

(** ** Paths, export and the command line: [convert_to_3d] and [main] *)

(** [s.replace(old, new)] for a non-empty [old]: the occurrences of [old]
    are replaced from left to right, without overlap.  [skip] counts the
    characters of a matched occurrence that are still to be dropped. *)
Fixpoint replace_from (skip : nat) (old new s : string) : string :=
  match s with
  | EmptyString => EmptyString
  | String c rest =>
      match skip with
      | S k => replace_from k old new rest
      | O =>
          if String.prefix old s
          then (new ++ replace_from (String.length old - 1) old new rest)%string
          else String c (replace_from 0 old new rest)
      end
  end.

Definition str_replace (old new s : string) : string := replace_from 0 old new s.

Fixpoint contains_char (c : ascii) (s : string) : bool :=
  match s with
  | EmptyString => false
  | String a rest => Ascii.eqb a c || contains_char c rest
  end.

(** [os.path.basename(p)] on POSIX paths: what follows the last ["/"]. *)
Fixpoint basename (p : string) : string :=
  match p with
  | EmptyString => EmptyString
  | String c rest =>
      if contains_char "/" rest then basename rest
      else if Ascii.eqb c "/" then rest else p
  end.

(** [s.rfind(c)]: the index of the last [c], or -1. *)
Fixpoint rfind_from (i : Z) (c : ascii) (s : string) (last : Z) : Z :=
  match s with
  | EmptyString => last
  | String a rest => rfind_from (i + 1) c rest (if Ascii.eqb a c then i else last)
  end.

Definition rfind (c : ascii) (s : string) : Z := rfind_from 0 c s (-1).

Fixpoint all_dots (s : string) : bool :=
  match s with
  | EmptyString => true
  | String a rest => Ascii.eqb a "." && all_dots rest
  end.

(** [os.path.splitext(p)]: the extension starts at the last ["."] after the
    last ["/"], unless only dots come between the two. *)
Definition splitext (p : string) : string * string :=
  let sepIndex := rfind "/" p in
  let dotIndex := rfind "." p in
  if (sepIndex <? dotIndex)
     && negb (all_dots (String.substring (Z.to_nat (sepIndex + 1))
                                         (Z.to_nat (dotIndex - sepIndex - 1)) p))
  then (String.substring 0 (Z.to_nat dotIndex) p,
        String.substring (Z.to_nat dotIndex)
                         (String.length p - Z.to_nat dotIndex) p)
  else (p, EmptyString).

(** What the program finds outside itself: which paths exist, what the YAML
    file holds, what [cv2.imread] returns, and whether an export to a path
    succeeds (known extension, writable location). *)
Record environment : Type := {
  path_exists : string -> bool;
  yaml_safe_load : string -> map_metadata;
  cv2_imread : string -> option (ndarray Z);
  can_export : string -> bool
}.

(** An exception of the conversion proper, or one raised by an export. *)
Inductive failure : Type :=
| Core (e : exn)
| ExportError.

(** [Map3DConverter(map_png_path, map_yaml_path, wall_height)]: [open] fails
    on a missing YAML file before anything is read. *)
Definition construct (env : environment) (map_png_path map_yaml_path : string)
    (wall_height : Q) : result Map3DConverter :=
  if path_exists env map_yaml_path
  then __init__ (cv2_imread env map_png_path)
                (yaml_safe_load env map_yaml_path) wall_height
  else Raise FileNotFoundError.

Section CommandLine.

Variable remove_duplicate_faces : trimesh.Trimesh -> trimesh.Trimesh.
Variable fix_normals : trimesh.Trimesh -> trimesh.Trimesh.

(** [convert_to_3d(output_path)] with its exports (lines 183-214): the files
    written, in order, and the returned path or the exception. *)
Definition convert_to_3d_export (env : environment) (self : Map3DConverter)
    (map_png_path : string) (output_path : option string)
    : list (string * trimesh.Trimesh) * (failure + string) :=
  let output_path :=
    match output_path with
    | None =>
        let base_name := (splitext (basename map_png_path)).1 in
        (base_name ++ "_3d.obj")%string
    | Some output_path => output_path
    end in
  match convert_to_3d remove_duplicate_faces fix_normals self with
  | Raise e => ([], inl (Core e))
  | Ok combined_mesh =>
      if can_export env output_path then
        let stl_path := str_replace ".obj" ".stl" output_path in
        if can_export env stl_path
        then ([(output_path, combined_mesh); (stl_path, combined_mesh)],
              inr output_path)
        else ([(output_path, combined_mesh)], inl ExportError)
      else ([], inl ExportError)
  end.

Record arguments : Type := {
  track_name : string;
  height : Q;
  output : option string
}.

(** How a run of [main] ends: with a return value (the exit status), or with
    an exception nothing caught. *)
Inductive status : Type :=
| Returned (code : Z)
| Uncaught (e : exn).

Record run : Type := {
  made_dirs : list string;
  written : list (string * trimesh.Trimesh);
  ended : status
}.

(** [main] (lines 216-279), from the parsed arguments on.  [os.makedirs] is
    taken to succeed; an empty [--output] counts as absent, as the truth
    test of line 235 has it. *)
Definition main (env : environment) (args : arguments) : run :=
  let track_name := track_name args in
  let input_dir := ("tracks/" ++ track_name)%string in
  let output_dir := ("output/" ++ track_name)%string in
  let map_png := (input_dir ++ "/" ++ track_name ++ "_map.png")%string in
  let map_yaml := (input_dir ++ "/" ++ track_name ++ "_map.yaml")%string in
  let '(output_path, dirs) :=
    match output args with
    | Some (String c rest) => (String c rest, [])
    | _ => ((output_dir ++ "/" ++ track_name ++ "_track_3d.obj")%string,
            [output_dir])
    end in
  if negb (path_exists env map_png)
  then {| made_dirs := dirs; written := []; ended := Returned 1 |}
  else if negb (path_exists env map_yaml)
  then {| made_dirs := dirs; written := []; ended := Returned 1 |}
  else
    match construct env map_png map_yaml (height args) with
    | Raise e => {| made_dirs := dirs; written := []; ended := Uncaught e |}
    | Ok converter =>
        match convert_to_3d_export env converter map_png (Some output_path) with
        | (files, inr _) =>
            {| made_dirs := dirs; written := files; ended := Returned 0 |}
        | (files, inl _) =>
            {| made_dirs := dirs; written := files; ended := Returned 1 |}
        end
    end.

End CommandLine.

(** [old] occurs in [s]. *)
Fixpoint occurs (old s : string) : bool :=
  match s with
  | EmptyString => String.prefix old EmptyString
  | String _ rest => String.prefix old s || occurs old rest
  end.

(** The paths [main] derives from its arguments. *)
Definition map_png_of (track_name : string) : string :=
  (("tracks/" ++ track_name) ++ "/" ++ track_name ++ "_map.png")%string.

Definition map_yaml_of (track_name : string) : string :=
  (("tracks/" ++ track_name) ++ "/" ++ track_name ++ "_map.yaml")%string.

Definition default_output_of (track_name : string) : string :=
  (("output/" ++ track_name) ++ "/" ++ track_name ++ "_track_3d.obj")%string.

Definition output_path_of (args : arguments) : string :=
  match output args with
  | Some (String c rest) => String c rest
  | _ => default_output_of (track_name args)
  end.

(** The directories [main] creates: the default output directory, unless
    an output path was given. *)
Definition made_dirs_of (args : arguments) : list string :=
  match output args with
  | Some (String _ _) => []
  | _ => [("output/" ++ track_name args)%string]
  end.

(** A converter whose [free_thresh] is 1. *)
Definition saturated : Map3DConverter :=
  {| map_png := Some [[0; 10]]; wall_height := 1; resolution := 1;
     origin := [0; 0]%Q;
     occupied_thresh := (45 # 100)%Q; free_thresh := 1 |}.

(** An environment in which every file exists and every export succeeds. *)
Definition any_export : environment :=
  {| path_exists := fun _ => true;
     yaml_safe_load := fun _ => negative_resolution;
     cv2_imread := fun _ => Some [[0]];
     can_export := fun _ => true |}.

(** ** Vocabulary of the further properties *)

(** Row-major order of pixel coordinates. *)
Definition row_major_lt (a b : Z * Z) : Prop :=
  a.1 < b.1 \/ (a.1 = b.1 /\ a.2 < b.2).

(** Every index of a face addresses one of [n] vertices. *)
Definition face_in_range (n : Z) (f : face) : Prop :=
  0 <= f.1.1 < n /\ 0 <= f.1.2 < n /\ 0 <= f.2 < n.

Definition well_indexed (mesh : trimesh.Trimesh) : Prop :=
  Forall (face_in_range (Z.of_nat (length (trimesh.vertices mesh))))
         (trimesh.faces mesh).

(** Two vertex sets lie strictly on either side of a line parallel to the
    Y axis or to the X axis (seen from above). *)
Definition separated (a b : list vertex) : Prop :=
  (forall p q, p ∈ a -> q ∈ b -> (vx p < vx q)%Q) \/
  (forall p q, p ∈ a -> q ∈ b -> (vx q < vx p)%Q) \/
  (forall p q, p ∈ a -> q ∈ b -> (vy p < vy q)%Q) \/
  (forall p q, p ∈ a -> q ∈ b -> (vy q < vy p)%Q).

(** Some cell of the grid holds a nonzero value. *)
Definition has_occupied (grid : ndarray Z) : Prop :=
  exists r c : nat, occupied_at grid (Z.of_nat r) (Z.of_nat c).

(** The same converter with another origin. *)
Definition with_origin (o : list Q) (self : Map3DConverter) : Map3DConverter :=
  {| map_png := map_png self;
     wall_height := wall_height self;
     resolution := resolution self;
     origin := o;
     occupied_thresh := occupied_thresh self;
     free_thresh := free_thresh self |}.

(** [v'] is [v] moved by [(dx, dy)] in the XY plane. *)
Definition moved_by (dx dy : Q) (v v' : vec3) : Prop :=
  vec3_eq v' (Vec3 (vx v + dx) (vy v + dy) (vz v)).

(** * Properties *)

Lemma Qlt_bool_iff (x y : Q) : Qlt_bool x y = true <-> (x < y)%Q.
Proof. unfold Qlt_bool, Qlt. apply Z.ltb_lt. Qed.

Lemma Qlt_bool_false (x y : Q) : Qlt_bool x y = false <-> (y <= x)%Q.
Proof. unfold Qlt_bool, Qle. apply Z.ltb_ge. Qed.

Lemma Qle_bool_false (x y : Q) : Qle_bool x y = false <-> (y < x)%Q.
Proof.
  unfold Qle_bool, Qlt. apply Z.leb_gt.
Qed.

Lemma zip_with_fmap_same {A B C D} (f : B -> C -> D) (g : A -> B) (h : A -> C)
    (l : list A) :
  zip_with f (g <$> l) (h <$> l) = (fun x => f (g x) (h x)) <$> l.
Proof. induction l as [|x l IH]; [reflexivity | cbn; f_equal; exact IH]. Qed.

Lemma zip2d_map2d_same {A B C D} (f : B -> C -> D) (g : A -> B) (h : A -> C)
    (arr : ndarray A) :
  np.zip2d f (np.map2d g arr) (np.map2d h arr)
  = np.map2d (fun x => f (g x) (h x)) arr.
Proof.
  unfold np.zip2d, np.map2d.
  induction arr as [|row arr IH]; [reflexivity|].
  cbn. f_equal; [apply zip_with_fmap_same | exact IH].
Qed.

Lemma map2d_map2d {A B C} (f : A -> B) (g : B -> C) (arr : ndarray A) :
  np.map2d g (np.map2d f arr) = np.map2d (fun x => g (f x)) arr.
Proof.
  unfold np.map2d. rewrite <- list_fmap_compose.
  apply list_fmap_ext. intros _ row _. simpl.
  now rewrite <- list_fmap_compose.
Qed.

(** The occupancy grid is the image with [classify] applied to every
    normalized pixel. *)
Lemma load_and_process_map_cells (self : Map3DConverter) (map_img : ndarray Z) :
  map_png self = Some map_img ->
  load_and_process_map self
  = Ok (np.map2d (fun p => classify (occupied_thresh self) (free_thresh self)
                                    (normalize p)) map_img).
Proof.
  intros Himg. unfold load_and_process_map, threshold_map. rewrite Himg. f_equal.
  unfold assign_unknown, assign_free, assign_occupied.
  unfold np.setitem_mask, np.zeros_like.
  change (fmap (fmap (fun _ : Z => 0)) map_img) with (np.map2d (fun _ : Z => 0) map_img).
  rewrite !map2d_map2d.
  rewrite !zip2d_map2d_same.
  reflexivity.
Qed.

Lemma item_map2d {A B} (f : A -> B) (arr : ndarray A) (r c : nat) :
  np.item (np.map2d f arr) r c = f <$> np.item arr r c.
Proof.
  unfold np.item, np.map2d. rewrite list_lookup_fmap.
  destruct (arr !! r) as [row|]; simpl; [apply list_lookup_fmap | reflexivity].
Qed.

(** Every cell of the occupancy grid is [classify] of its normalized pixel. *)
Lemma load_and_process_map_item (self : Map3DConverter) (map_img : ndarray Z)
    (r c : nat) (p : Z) :
  map_png self = Some map_img ->
  np.item map_img r c = Some p ->
  exists grid,
    load_and_process_map self = Ok grid /\
    np.item grid r c
    = Some (classify (occupied_thresh self) (free_thresh self) (normalize p)).
Proof.
  intros Himg Hp. eexists. split.
  - apply load_and_process_map_cells, Himg.
  - rewrite item_map2d, Hp. reflexivity.
Qed.

(** [classify] in closed form: only the Free rule decides. *)
Lemma classify_closed_form (occ free v : Q) :
  classify occ free v = if Qle_bool (1 - free)%Q v then Free else Occupied.
Proof.
  unfold classify, unknown_rule, free_rule, occupied_rule.
  destruct (Qle_bool (1 - free) v) eqn:Hfree.
  - apply Qle_bool_iff in Hfree.
    assert (Qlt_bool v (1 - free) = false) as -> by (now apply Qlt_bool_false).
    now rewrite andb_false_r.
  - apply Qle_bool_false in Hfree.
    assert (Qlt_bool v (1 - free) = true) as -> by (now apply Qlt_bool_iff).
    rewrite andb_true_r.
    destruct (Qle_bool v (1 - occ)) eqn:Hocc.
    + now destruct (Qlt_bool (1 - occ) v).
    + apply Qle_bool_false in Hocc.
      assert (Qlt_bool (1 - occ) v = true) as -> by (now apply Qlt_bool_iff).
      reflexivity.
Qed.

(** ** Grid classifier *)

(** C1, as stated, fails when the two thresholds overlap.  With
    [occupied_thresh = 0.1] and [free_thresh = 0.5] the pixel 204
    (normalized 0.8, in [0,1]) satisfies the Occupied rule [v <= 1 - 0.1],
    yet the grid holds Free for it. *)
Lemma classify_occupied_rule_overridden :
  let self := {| map_png := Some [[204]]; wall_height := 1; resolution := 1;
                 origin := [0; 0]%Q;
                 occupied_thresh := (1 # 10)%Q; free_thresh := (1 # 2)%Q |} in
  let v := normalize 204 in
  (0 <= v)%Q /\ (v <= 1)%Q /\
  (v <= 1 - occupied_thresh self)%Q /\
  classify (occupied_thresh self) (free_thresh self) v <> Occupied /\
  load_and_process_map self = Ok [[Free]].
Proof.
  cbv zeta. repeat split; try (intros H; discriminate H).
Qed.

(** C1 (amended): a cell of normalized intensity [v] is Free if
    [v >= 1 - free_thresh]; Occupied if [v <= 1 - occupied_thresh] and
    [v < 1 - free_thresh]; Occupied in the unknown band
    [1 - occupied_thresh < v < 1 - free_thresh].  With thresholds 0.45 and
    0.196, intensity 0.55 is Occupied, 0.804 is Free and 0.6 is Occupied. *)
Theorem grid_classifier_rules (self : Map3DConverter) (map_img : ndarray Z)
    (r c : nat) (p : Z) :
  map_png self = Some map_img ->
  np.item map_img r c = Some p ->
  exists grid cell,
    load_and_process_map self = Ok grid /\
    np.item grid r c = Some cell /\
    cell = classify (occupied_thresh self) (free_thresh self) (normalize p) /\
    ((1 - free_thresh self <= normalize p)%Q -> cell = Free) /\
    ((normalize p <= 1 - occupied_thresh self)%Q ->
     (normalize p < 1 - free_thresh self)%Q -> cell = Occupied) /\
    ((1 - occupied_thresh self < normalize p)%Q ->
     (normalize p < 1 - free_thresh self)%Q -> cell = Occupied) /\
    classify (45 # 100) (196 # 1000) (55 # 100) = Occupied /\
    classify (45 # 100) (196 # 1000) (804 # 1000) = Free /\
    classify (45 # 100) (196 # 1000) (6 # 10) = Occupied.
Proof.
  intros Himg Hp.
  destruct (load_and_process_map_item self map_img r c p Himg Hp)
    as (grid & Hgrid & Hcell).
  exists grid, (classify (occupied_thresh self) (free_thresh self) (normalize p)).
  rewrite classify_closed_form.
  repeat split; try assumption; try reflexivity.
  - now rewrite Hcell, classify_closed_form.
  - intros Hfree. apply Qle_bool_iff in Hfree. now rewrite Hfree.
  - intros _ Hlt. apply Qle_bool_false in Hlt. now rewrite Hlt.
  - intros _ Hlt. apply Qle_bool_false in Hlt. now rewrite Hlt.
Qed.

Lemma grid_classifier_rules_witness :
  let self := {| map_png := Some [[0; 255]; [204; 140]]; wall_height := 1;
                 resolution := 1; origin := [0; 0]%Q;
                 occupied_thresh := (45 # 100)%Q;
                 free_thresh := (196 # 1000)%Q |} in
  exists grid cell,
    load_and_process_map self = Ok grid /\
    np.item grid 1 0 = Some cell /\ cell = Occupied.
Proof.
  cbv zeta.
  destruct (grid_classifier_rules
              {| map_png := Some [[0; 255]; [204; 140]]; wall_height := 1;
                 resolution := 1; origin := [0; 0]%Q;
                 occupied_thresh := (45 # 100)%Q;
                 free_thresh := (196 # 1000)%Q |}
              [[0; 255]; [204; 140]] 1 0 204 eq_refl eq_refl)
    as (grid & cell & Hgrid & Hitem & _ & _ & _ & Hband & _).
  exists grid, cell. repeat split; try assumption.
  apply Hband; reflexivity.
Defined.

(** ** Boundary extractor *)

Lemma item_imap2d {A B} (f : nat -> nat -> A -> B) (arr : ndarray A) (r c : nat) :
  np.item (imap (fun r row => imap (f r) row) arr) r c = f r c <$> np.item arr r c.
Proof.
  unfold np.item. rewrite list_lookup_imap.
  destruct (arr !! r) as [row|]; simpl; [apply list_lookup_imap | reflexivity].
Qed.

Lemma item_zip2d {A B C} (f : A -> B -> C) (a : ndarray A) (b : ndarray B)
    (r c : nat) :
  np.item (np.zip2d f a b) r c
  = x ← np.item a r c; y ← np.item b r c; Some (f x y).
Proof.
  unfold np.item, np.zip2d. rewrite lookup_zip_with.
  destruct (a !! r) as [ra|]; simpl; [|reflexivity].
  destruct (b !! r) as [rb|]; simpl.
  - apply lookup_zip_with.
  - now destruct (ra !! c).
Qed.

Lemma item_astype_bool (grid : ndarray Z) (r c : nat) :
  np.item (np.astype_bool grid) r c
  = (fun x => negb (x =? 0)) <$> np.item grid r c.
Proof. apply item_map2d. Qed.

Lemma offsets_ones33 :
  ndimage.structure_offsets (np.astype_bool (np.ones 3 3))
  = [(-1, -1); (-1, 0); (-1, 1); (0, -1); (0, 0); (0, 1); (1, -1); (1, 0); (1, 1)].
Proof. reflexivity. Qed.

Lemma padded_occupied (grid : ndarray Z) (r c : Z) :
  ndimage.padded false (np.astype_bool grid) r c = true <-> occupied_at grid r c.
Proof.
  unfold ndimage.padded, occupied_at.
  rewrite item_astype_bool.
  destruct (0 <=? r) eqn:Hr; destruct (0 <=? c) eqn:Hc; simpl;
    try (split; [discriminate | intros (? & ? & _); lia]).
  apply Z.leb_le in Hr, Hc.
  destruct (np.item grid (Z.to_nat r) (Z.to_nat c)) as [x|]; simpl.
  - rewrite negb_true_iff, Z.eqb_neq. split.
    + intros Hx. repeat split; try assumption. now exists x.
    + intros (_ & _ & y & Hy & Hne). now inversion Hy; subst.
  - split; [discriminate | intros (_ & _ & y & Hy & _); discriminate].
Qed.

Lemma eroded_interior (grid : ndarray Z) (r c : Z) :
  forallb (fun d => ndimage.padded false (np.astype_bool grid) (r + d.1) (c + d.2))
          (ndimage.structure_offsets (np.astype_bool (np.ones 3 3))) = true
  <-> interior grid r c.
Proof.
  rewrite offsets_ones33, forallb_forall. unfold interior. split.
  - intros H dr dc Hdr Hdc. apply padded_occupied.
    apply (H (dr, dc)). simpl.
    assert (dr = -1 \/ dr = 0 \/ dr = 1) as [-> | [-> | ->]] by lia;
    assert (dc = -1 \/ dc = 0 \/ dc = 1) as [-> | [-> | ->]] by lia; tauto.
  - intros H [dr dc] Hin. apply padded_occupied. simpl.
    apply H; simpl in Hin;
      repeat (destruct Hin as [Hin | Hin]; [inversion Hin; lia|]); contradiction.
Qed.

Lemma is_boundary_iff (grid : ndarray Z) (r c : nat) :
  is_boundary grid r c
  <-> occupied_at grid (Z.of_nat r) (Z.of_nat c)
      /\ ~ interior grid (Z.of_nat r) (Z.of_nat c).
Proof.
  unfold is_boundary, wall_edges, ndimage.binary_erosion.
  rewrite item_zip2d, item_map2d, item_imap2d.
  rewrite <- eroded_interior.
  set (E := forallb _ _).
  unfold occupied_at. rewrite !Nat2Z.id.
  rewrite !item_astype_bool.
  destruct (np.item grid r c) as [x|]; simpl.
  - destruct E; simpl.
    + rewrite andb_false_r. split; [discriminate | intros [_ H]; now elim H].
    + rewrite andb_true_r. split.
      * intros Hx. injection Hx as Hx. apply negb_true_iff, Z.eqb_neq in Hx.
        split; [|discriminate]. repeat split; try lia. now exists x.
      * intros [(_ & _ & y & Hy & Hne) _]. inversion Hy; subst.
        f_equal. now apply negb_true_iff, Z.eqb_neq.
  - split; [discriminate | intros [(_ & _ & y & Hy & _) _]; discriminate].
Qed.

(** [np.where] lists exactly the set cells of a mask. *)
Lemma elem_of_true_indices (row : list bool) (c0 c : Z) :
  c ∈ np.true_indices c0 row
  <-> exists j : nat, c = c0 + Z.of_nat j /\ row !! j = Some true.
Proof.
  revert c0. induction row as [|b row IH]; intros c0; simpl.
  - split; [intros H; inversion H | intros (j & _ & H); discriminate].
  - rewrite elem_of_app, IH. split.
    + intros [Hhd | (j & -> & Hj)].
      * destruct b; [|inversion Hhd]. apply list_elem_of_singleton in Hhd.
        exists 0%nat. split; [lia | reflexivity].
      * exists (S j). split; [lia | exact Hj].
    + intros ([|j] & -> & Hj); simpl in Hj.
      * left. injection Hj as ->. apply list_elem_of_singleton. lia.
      * right. exists j. split; [lia | exact Hj].
Qed.

Lemma elem_of_where_from (mask : ndarray bool) (r0 r c : Z) :
  (r, c) ∈ np.where_from r0 mask
  <-> exists i j : nat,
        r = r0 + Z.of_nat i /\ c = Z.of_nat j /\ np.item mask i j = Some true.
Proof.
  revert r0. induction mask as [|row mask IH]; intros r0; simpl.
  - split; [intros H; inversion H | intros (i & j & _ & _ & H); discriminate].
  - rewrite elem_of_app, IH, list_elem_of_fmap. split.
    + intros [(c' & Heq & Hc') | (i & j & -> & -> & Hij)].
      * injection Heq as -> ->. apply elem_of_true_indices in Hc' as (j & -> & Hj).
        exists 0%nat, j. repeat split; try lia. exact Hj.
      * exists (S i), j. repeat split; try lia. exact Hij.
    + intros ([|i] & j & -> & -> & Hij).
      * left. exists (Z.of_nat j). split; [f_equal; lia|].
        apply elem_of_true_indices. exists j. split; [lia | exact Hij].
      * right. exists i, j. repeat split; try lia. exact Hij.
Qed.

Lemma elem_of_wall_pixels (grid : ndarray Z) (r c : Z) :
  (r, c) ∈ wall_pixels grid
  <-> exists i j : nat, r = Z.of_nat i /\ c = Z.of_nat j /\ is_boundary grid i j.
Proof.
  unfold wall_pixels, np.where_, is_boundary. rewrite elem_of_where_from.
  split; intros (i & j & Hr & Hc & H); exists i, j; repeat split;
    try assumption; lia.
Qed.

Lemma border_not_interior (grid : ndarray Z) (height width : nat) (r c : nat) :
  np.is_array height width grid ->
  (r = 0 \/ c = 0 \/ r = height - 1 \/ c = width - 1)%nat ->
  ~ interior grid (Z.of_nat r) (Z.of_nat c).
Proof.
  intros [Hh Hw] Hborder Hint.
  assert (Hout : forall dr dc, -1 <= dr <= 1 -> -1 <= dc <= 1 ->
            0 <= Z.of_nat r + dr /\ 0 <= Z.of_nat c + dc /\
            Z.of_nat r + dr < Z.of_nat height /\
            Z.of_nat c + dc < Z.of_nat width).
  { intros dr dc Hdr Hdc.
    destruct (Hint dr dc Hdr Hdc) as (H0r & H0c & x & Hx & _).
    unfold np.item in Hx.
    destruct (grid !! Z.to_nat (Z.of_nat r + dr)) as [row|] eqn:Hrow;
      [|discriminate].
    simpl in Hx.
    pose proof (lookup_lt_Some _ _ _ Hrow) as Hlt1.
    pose proof (lookup_lt_Some _ _ _ Hx) as Hlt2.
    rewrite Forall_forall in Hw.
    rewrite (Hw row) in Hlt2 by (eapply list_elem_of_lookup_2; eassumption).
    lia. }
  destruct Hborder as [-> | [-> | [-> | ->]]].
  - specialize (Hout (-1) 0). lia.
  - specialize (Hout 0 (-1)). lia.
  - specialize (Hout 1 0). lia.
  - specialize (Hout 0 1). lia.
Qed.

(** C2: a cell is a boundary cell exactly when it is Occupied and does not
    survive the 3x3 erosion in which positions outside the grid count as
    Free.  Hence every boundary cell is Occupied, every Occupied cell on the
    border of the grid is a boundary cell, and the all-occupied 3x3 grid has
    exactly 8 boundary cells: all but the centre. *)
Theorem boundary_extractor (grid : ndarray Z) (height width : nat) :
  np.is_array height width grid ->
  (forall r c : nat,
      is_boundary grid r c
      <-> occupied_at grid (Z.of_nat r) (Z.of_nat c)
          /\ ~ interior grid (Z.of_nat r) (Z.of_nat c)) /\
  (forall r c : Z,
      (r, c) ∈ wall_pixels grid
      <-> exists i j : nat,
            r = Z.of_nat i /\ c = Z.of_nat j /\ is_boundary grid i j) /\
  (forall r c : nat,
      is_boundary grid r c -> occupied_at grid (Z.of_nat r) (Z.of_nat c)) /\
  (forall r c : nat,
      occupied_at grid (Z.of_nat r) (Z.of_nat c) ->
      (r = 0 \/ c = 0 \/ r = height - 1 \/ c = width - 1)%nat ->
      is_boundary grid r c) /\
  wall_pixels (np.ones 3 3)
  = [(0, 0); (0, 1); (0, 2); (1, 0); (1, 2); (2, 0); (2, 1); (2, 2)] /\
  total_pixels (np.ones 3 3) = 8%nat.
Proof.
  intros Harr.
  split; [|split; [|split; [|split; [|split]]]]; try reflexivity.
  - intros r c. apply is_boundary_iff.
  - intros r c. apply elem_of_wall_pixels.
  - intros r c H. now apply is_boundary_iff in H.
  - intros r c Hocc Hborder. apply is_boundary_iff. split; [assumption|].
    eapply border_not_interior; eassumption.
Qed.

Lemma boundary_extractor_witness :
  is_boundary (np.ones 3 3) 0 2 /\ ~ is_boundary (np.ones 3 3) 1 1.
Proof.
  assert (Harr : np.is_array 3 3 (np.ones 3 3)).
  { split; [reflexivity|]. repeat constructor. }
  destruct (boundary_extractor (np.ones 3 3) 3 3 Harr)
    as (Hiff & _ & _ & Hborder & _ & _).
  split.
  - apply Hborder; [|left; reflexivity].
    repeat split; try lia. exists 1. split; [reflexivity | lia].
  - intros H. discriminate H.
Defined.

(** ** Grid classifier: the staged assignments and float thresholds *)

Lemma item_setitem_mask {A} (arr : ndarray A) (mask : ndarray bool) (val : A)
    (r c : nat) :
  np.item (np.setitem_mask arr mask val) r c
  = a ← np.item arr r c; m ← np.item mask r c;
    Some (if m : bool then val else a).
Proof. unfold np.setitem_mask. apply item_zip2d. Qed.

Lemma item_zeros_like {A} (arr : ndarray A) (r c : nat) :
  np.item (np.zeros_like arr) r c = (fun _ => 0) <$> np.item arr r c.
Proof. apply (item_map2d (fun _ : A => 0)). Qed.

(** C7: a cell that satisfies both the Occupied rule and the Free rule ends
    up Free.  The grid after the assignment of line 59 holds Occupied for it,
    the grid after the assignment of line 60 holds Free, the assignment of
    lines 61-62 leaves it Free, and that last grid is the one
    [load_and_process_map] returns. *)
Theorem free_rule_overrides (self : Map3DConverter) (map_img : ndarray Z)
    (r c : nat) (p : Z) :
  map_png self = Some map_img ->
  np.item map_img r c = Some p ->
  (normalize p <= 1 - occupied_thresh self)%Q ->
  (1 - free_thresh self <= normalize p)%Q ->
  let normalized := np.map2d normalize map_img in
  let grid0 := np.zeros_like map_img in
  let grid1 := assign_occupied (Fin (occupied_thresh self)) normalized grid0 in
  let grid2 := assign_free (Fin (free_thresh self)) normalized grid1 in
  let grid3 := assign_unknown (Fin (occupied_thresh self))
                              (Fin (free_thresh self)) normalized grid2 in
  np.item grid1 r c = Some Occupied /\
  np.item grid2 r c = Some Free /\
  np.item grid3 r c = Some Free /\
  load_and_process_map self = Ok grid3.
Proof.
  intros Himg Hp Hocc Hfree. cbv zeta.
  apply Qle_bool_iff in Hocc, Hfree.
  assert (H1 : np.item (assign_occupied (Fin (occupied_thresh self))
                          (np.map2d normalize map_img) (np.zeros_like map_img))
                       r c = Some Occupied).
  { unfold assign_occupied.
    rewrite item_setitem_mask, item_zeros_like, !item_map2d, Hp.
    cbn [fmap option_fmap option_map mbind option_bind float_le one_minus].
    now rewrite Hocc. }
  assert (H2 : np.item (assign_free (Fin (free_thresh self))
                          (np.map2d normalize map_img)
                          (assign_occupied (Fin (occupied_thresh self))
                             (np.map2d normalize map_img)
                             (np.zeros_like map_img)))
                       r c = Some Free).
  { unfold assign_free at 1.
    rewrite item_setitem_mask, H1, !item_map2d, Hp.
    cbn [fmap option_fmap option_map mbind option_bind float_le one_minus].
    now rewrite Hfree. }
  split; [exact H1|]. split; [exact H2|]. split.
  - unfold assign_unknown at 1.
    rewrite item_setitem_mask, H2, item_zip2d, !item_map2d, Hp.
    cbn [fmap option_fmap option_map mbind option_bind float_lt one_minus].
    assert (Qlt_bool (normalize p) (1 - free_thresh self) = false) as ->
      by (apply Qlt_bool_false; now apply Qle_bool_iff).
    now rewrite andb_false_r.
  - unfold load_and_process_map, threshold_map. now rewrite Himg.
Qed.

Lemma free_rule_overrides_witness :
  let self := {| map_png := Some [[204; 0]]; wall_height := 1; resolution := 1;
                 origin := [0; 0]%Q;
                 occupied_thresh := (1 # 10)%Q; free_thresh := (1 # 2)%Q |} in
  let normalized := np.map2d normalize [[204; 0]] in
  np.item (assign_occupied (Fin (1 # 10)) normalized (np.zeros_like [[204; 0]]))
          0 0 = Some Occupied /\
  load_and_process_map self = Ok [[Free; Occupied]].
Proof.
  cbv zeta.
  destruct (free_rule_overrides
              {| map_png := Some [[204; 0]]; wall_height := 1; resolution := 1;
                 origin := [0; 0]%Q;
                 occupied_thresh := (1 # 10)%Q; free_thresh := (1 # 2)%Q |}
              [[204; 0]] 0 0 204 eq_refl eq_refl)
    as (H1 & _ & _ & Hload).
  - vm_compute. intros H; discriminate H.
  - vm_compute. intros H; discriminate H.
  - split; [exact H1 | exact Hload].
Defined.

(** Cells of the thresholded map, for any float thresholds. *)
Lemma threshold_map_cells (map_img : ndarray Z) (occ free : pyfloat) :
  threshold_map (Some map_img) occ free
  = Ok (np.map2d (fun p => classify_at occ free (normalize p)) map_img).
Proof.
  unfold threshold_map. f_equal.
  unfold assign_unknown, assign_free, assign_occupied.
  unfold np.setitem_mask, np.zeros_like.
  change (fmap (fmap (fun _ : Z => 0)) map_img)
    with (np.map2d (fun _ : Z => 0) map_img).
  rewrite !map2d_map2d.
  rewrite !zip2d_map2d_same.
  reflexivity.
Qed.

Lemma float_lt_not_le (a b : pyfloat) :
  a <> NaN -> b <> NaN -> float_lt a b = negb (float_le b a).
Proof.
  intros Ha Hb. destruct a as [x| | |], b as [y| | |]; try contradiction;
    try reflexivity. cbn.
  destruct (Qle_bool y x) eqn:E; cbn.
  - apply Qlt_bool_false. now apply Qle_bool_iff.
  - apply Qlt_bool_iff. now apply Qle_bool_false.
Qed.

Lemma one_minus_not_nan (t : pyfloat) : t <> NaN -> one_minus t <> NaN.
Proof. destruct t; cbn; congruence. Qed.

Lemma classify_at_closed_form (occ free : pyfloat) (v : Q) :
  occ <> NaN -> free <> NaN ->
  classify_at occ free v
  = if float_le (one_minus free) (Fin v) then Free else Occupied.
Proof.
  intros Hocc Hfree. unfold classify_at.
  pose proof (one_minus_not_nan occ Hocc) as Ho.
  pose proof (one_minus_not_nan free Hfree) as Hf.
  assert (Hv : Fin v <> NaN) by discriminate.
  rewrite (float_lt_not_le (Fin v) (one_minus free) Hv Hf).
  rewrite (float_lt_not_le (one_minus occ) (Fin v) Ho Hv).
  destruct (float_le (one_minus free) (Fin v));
    destruct (float_le (Fin v) (one_minus occ)); reflexivity.
Qed.

(** C10, as stated, fails when a threshold is NaN (YAML [.nan]): every
    comparison with it is false.  With [free_thresh] NaN the pixel 100 is
    Occupied for [occupied_thresh] 0.45 and Free for 0.9; with
    [occupied_thresh] NaN the pixel 0 stays Free although it is below the
    free level. *)
Lemma nan_threshold_counterexample :
  threshold_map (Some [[100]]) (Fin (45 # 100)) NaN = Ok [[Occupied]] /\
  threshold_map (Some [[100]]) (Fin (9 # 10)) NaN = Ok [[Free]] /\
  threshold_map (Some [[0]]) NaN (Fin (196 # 1000)) = Ok [[Free]] /\
  float_le (one_minus (Fin (196 # 1000))) (Fin (normalize 0)) = false.
Proof. repeat split. Qed.

(** C10 (amended): for thresholds that are not NaN the occupancy grid does
    not depend on [occupied_thresh]: any two values of it give the same
    result, and the grid is Free exactly at the pixels with
    [v >= 1 - free_thresh] and Occupied at all the others. *)
Theorem occupied_thresh_irrelevant_unless_nan (map_img : option (ndarray Z))
    (t1 t2 free : pyfloat) :
  t1 <> NaN -> t2 <> NaN -> free <> NaN ->
  threshold_map map_img t1 free = threshold_map map_img t2 free /\
  threshold_map map_img t1 free
  = match map_img with
    | None => Raise FileNotFoundError
    | Some map_img =>
        Ok (np.map2d (fun p => if float_le (one_minus free) (Fin (normalize p))
                               then Free else Occupied) map_img)
    end /\
  (forall self : Map3DConverter,
      load_and_process_map self
      = threshold_map (map_png self) (Fin (occupied_thresh self))
                      (Fin (free_thresh self))) /\
  (forall (self : Map3DConverter) (t : Q),
      load_and_process_map (with_occupied_thresh t self)
      = load_and_process_map self).
Proof.
  intros H1 H2 Hfree.
  assert (Hform : forall t, t <> NaN ->
             threshold_map map_img t free
             = match map_img with
               | None => Raise FileNotFoundError
               | Some map_img =>
                   Ok (np.map2d
                         (fun p => if float_le (one_minus free) (Fin (normalize p))
                                   then Free else Occupied) map_img)
               end).
  { intros t Ht. destruct map_img as [img|]; [|reflexivity].
    rewrite threshold_map_cells. f_equal. unfold np.map2d.
    apply list_fmap_ext. intros _ row _. apply list_fmap_ext. intros _ p _.
    now apply classify_at_closed_form. }
  split; [now rewrite (Hform t1 H1), (Hform t2 H2)|].
  split; [now apply Hform|]. split; [reflexivity|].
  intros self t. unfold load_and_process_map.
  cbn [with_occupied_thresh map_png occupied_thresh free_thresh].
  destruct (map_png self) as [img|]; [|reflexivity].
  rewrite !threshold_map_cells. f_equal. unfold np.map2d.
  apply list_fmap_ext. intros _ row _. apply list_fmap_ext. intros _ p _.
  rewrite !classify_at_closed_form by discriminate. reflexivity.
Qed.

Lemma occupied_thresh_irrelevant_unless_nan_witness :
  threshold_map (Some [[100; 250]]) (Fin (45 # 100)) (Fin (196 # 1000))
  = threshold_map (Some [[100; 250]]) PosInf (Fin (196 # 1000)).
Proof.
  apply (occupied_thresh_irrelevant_unless_nan (Some [[100; 250]])
           (Fin (45 # 100)) PosInf (Fin (196 # 1000))); discriminate.
Defined.

(** ** Wall synthesizer *)

Lemma mjoin_cons {A} (x : list A) (l : list (list A)) :
  mjoin (x :: l) = x ++ mjoin l.
Proof. reflexivity. Qed.

Lemma pixel_cube_eq (self : Map3DConverter) (ox oy : Q) (height : Z) (pixel : Z * Z) :
  origin self = [ox; oy] ->
  pixel_cube self height pixel
  = Ok (cuboid ox oy (resolution self) (wall_height self) height pixel).
Proof.
  intros Ho. destruct pixel as [row col]. unfold pixel_cube. rewrite Ho.
  reflexivity.
Qed.

Lemma wall_body_eq (self : Map3DConverter) (ox oy : Q) (height : Z)
    (st : wall_state) (pixel : Z * Z) :
  origin self = [ox; oy] ->
  wall_body self height st pixel
  = Ok {| vertices :=
            vertices st
            ++ cuboid ox oy (resolution self) (wall_height self) height pixel;
          faces := faces st ++ cube_faces (vertex_count st);
          vertex_count := vertex_count st + 8 |}.
Proof.
  intros Ho. unfold wall_body.
  now rewrite (pixel_cube_eq self ox oy height pixel Ho).
Qed.

Lemma for_each_wall_body (self : Map3DConverter) (ox oy : Q) (height : Z)
    (pixels : list (Z * Z)) (st : wall_state) :
  origin self = [ox; oy] ->
  for_each (wall_body self height) st pixels
  = Ok {| vertices :=
            vertices st
            ++ mjoin (cuboid ox oy (resolution self) (wall_height self) height
                        <$> pixels);
          faces := faces st ++ faces_from (vertex_count st) pixels;
          vertex_count := vertex_count st + 8 * Z.of_nat (length pixels) |}.
Proof.
  intros Ho. revert st.
  induction pixels as [|pixel pixels IH]; intros st.
  - destruct st as [vs fs n]. cbn.
    now rewrite !app_nil_r, Z.add_0_r.
  - cbn [for_each]. rewrite (wall_body_eq self ox oy height st pixel Ho).
    cbn [mbind result_bind]. rewrite IH. cbn [vertices faces vertex_count].
    f_equal. f_equal.
    + rewrite fmap_cons, mjoin_cons. now rewrite app_assoc.
    + cbn [faces_from]. now rewrite app_assoc.
    + rewrite length_cons. lia.
Qed.

Lemma wall_geometry_eq (self : Map3DConverter) (ox oy : Q) (grid : ndarray Z) :
  origin self = [ox; oy] ->
  wall_geometry self grid
  = Ok {| vertices :=
            mjoin (cuboid ox oy (resolution self) (wall_height self)
                          (Z.of_nat (length grid)) <$> wall_pixels grid);
          faces := faces_from 0 (wall_pixels grid);
          vertex_count := 8 * Z.of_nat (total_pixels grid) |}.
Proof.
  intros Ho. unfold wall_geometry, np.shape.
  rewrite (for_each_wall_body self ox oy _ _ _ Ho). reflexivity.
Qed.

Lemma length_cuboids (ox oy r h : Q) (grid_rows : Z) (pixels : list (Z * Z)) :
  length (mjoin (cuboid ox oy r h grid_rows <$> pixels)) = (8 * length pixels)%nat.
Proof.
  induction pixels as [|p pixels IH]; [reflexivity|].
  rewrite fmap_cons, mjoin_cons. rewrite length_app, IH.
  cbn [length cuboid cube_vertices]. lia.
Qed.

Lemma length_faces_from {A} (base_idx : Z) (pixels : list A) :
  length (faces_from base_idx pixels) = (12 * length pixels)%nat.
Proof.
  revert base_idx. induction pixels as [|p pixels IH]; intros base_idx;
    [reflexivity|].
  cbn [faces_from]. rewrite length_app, IH. cbn [length cube_faces]. lia.
Qed.

(** The block of the [i]-th pixel in the vertex list. *)
Lemma lookup_cuboids (ox oy r h : Q) (grid_rows : Z) (pixels : list (Z * Z))
    (i : nat) (pixel : Z * Z) (k : nat) :
  pixels !! i = Some pixel -> (k < 8)%nat ->
  mjoin (cuboid ox oy r h grid_rows <$> pixels) !! (8 * i + k)%nat
  = cuboid ox oy r h grid_rows pixel !! k.
Proof.
  revert i. induction pixels as [|p pixels IH]; intros i Hi Hk; [discriminate|].
  rewrite fmap_cons, mjoin_cons.
  destruct i as [|i].
  - injection Hi as ->. rewrite lookup_app_l by (cbn [length cuboid cube_vertices]; lia).
    f_equal; lia.
  - rewrite lookup_app_r by (cbn [length cuboid cube_vertices]; lia).
    cbn [length cuboid cube_vertices].
    replace (8 * S i + k - 8)%nat with (8 * i + k)%nat by lia.
    now apply IH.
Qed.

Lemma block_cuboids (ox oy r h : Q) (grid_rows : Z) (pixels : list (Z * Z))
    (i : nat) (pixel : Z * Z) :
  pixels !! i = Some pixel ->
  take 8 (drop (8 * i) (mjoin (cuboid ox oy r h grid_rows <$> pixels)))
  = cuboid ox oy r h grid_rows pixel.
Proof.
  revert i. induction pixels as [|p pixels IH]; intros i Hi; [discriminate|].
  rewrite fmap_cons, mjoin_cons. destruct i as [|i].
  - injection Hi as ->. reflexivity.
  - rewrite drop_app_ge by (cbn [length cuboid cube_vertices]; lia).
    cbn [length cuboid cube_vertices].
    replace (8 * S i - 8)%nat with (8 * i)%nat by lia.
    now apply IH.
Qed.

Lemma create_floor_mesh_eq (self : Map3DConverter) (ox oy : Q) (grid : ndarray Z) :
  origin self = [ox; oy] ->
  create_floor_mesh self grid
  = Ok {| trimesh.vertices :=
            floor_vertices ox (ox + inject_Z (np.shape grid).2 * resolution self)
                           oy (oy + inject_Z (np.shape grid).1 * resolution self);
          trimesh.faces := floor_faces |}.
Proof. intros Ho. unfold create_floor_mesh. rewrite Ho. reflexivity. Qed.

(** C3: a boundary cell (row, col) of a grid of [grid_rows] rows, with
    resolution [r > 0] and origin (ox, oy), yields the cuboid with
    [world_x = ox + col * r], [world_y = oy + (grid_rows - row - 1) * r] and
    [cube_size = 0.9 * r]: its eight vertices are the corners of
    [world_x, world_x + cube_size] x [world_y, world_y + cube_size] x [0, h].
    For a cell of row 0 the y-range starts at [oy + (grid_rows - 1) * r]. *)
Theorem wall_cuboid_placement (self : Map3DConverter) (ox oy : Q)
    (grid : ndarray Z) (i : nat) (row col : Z) :
  origin self = [ox; oy] ->
  (0 < resolution self)%Q ->
  wall_pixels grid !! i = Some (row, col) ->
  let grid_rows := Z.of_nat (length grid) in
  let r := resolution self in
  let h := wall_height self in
  let wx := (ox + inject_Z col * r)%Q in
  let wy := (oy + inject_Z (grid_rows - row - 1) * r)%Q in
  let cs := cube_size r in
  let cube := cube_vertices wx (wx + cs) wy (wy + cs) 0 h in
  (cs == (9 # 10) * r)%Q /\
  pixel_cube self grid_rows (row, col) = Ok cube /\
  (exists st, wall_geometry self grid = Ok st /\
              take 8 (drop (8 * i) (vertices st)) = cube) /\
  (forall v, v ∈ cube <->
             (vx v = wx \/ vx v = (wx + cs)%Q) /\
             (vy v = wy \/ vy v = (wy + cs)%Q) /\
             (vz v = 0%Q \/ vz v = h)) /\
  ((0 <= h)%Q ->
   Forall (in_box (Vec3 wx wy 0) (Vec3 (wx + cs) (wy + cs) h)) cube) /\
  (row = 0 -> wy = (oy + inject_Z (grid_rows - 1) * r)%Q).
Proof.
  intros Ho Hr Hi. cbv zeta.
  split; [unfold cube_size; ring|].
  split; [apply (pixel_cube_eq self ox oy _ (row, col) Ho)|].
  split.
  { eexists. split; [apply (wall_geometry_eq self ox oy grid Ho)|].
    cbn [vertices]. apply (block_cuboids _ _ _ _ _ _ _ _ Hi). }
  split.
  { intros [x y z]. unfold cube_vertices. cbn [vx vy vz].
    rewrite !elem_of_cons, elem_of_nil. split.
    - intros H. repeat (destruct H as [H | H]; [injection H as -> -> ->; tauto|]).
      contradiction.
    - intros ([-> | ->] & [-> | ->] & [-> | ->]); tauto. }
  split.
  { intros Hh. assert (0 <= cube_size (resolution self))%Q
      by (unfold cube_size; lra).
    unfold cube_vertices, in_box. repeat constructor; cbn [vx vy vz]; lra. }
  intros ->. now rewrite Z.sub_0_r.
Qed.


Lemma wall_cuboid_placement_witness :
  pixel_cube demo 2 (0, 0)
  = Ok (cube_vertices (0 + inject_Z 0 * 1) (0 + inject_Z 0 * 1 + cube_size 1)
                      (0 + inject_Z (2 - 0 - 1) * 1)
                      (0 + inject_Z (2 - 0 - 1) * 1 + cube_size 1) 0 1)%Q.
Proof.
  apply (wall_cuboid_placement demo 0 0 [[1; 0]; [1; 1]] 0 0 0 eq_refl).
  - reflexivity.
  - reflexivity.
Defined.

Lemma create_wall_mesh_id (self : Map3DConverter) (ox oy : Q) (grid : ndarray Z) :
  origin self = [ox; oy] ->
  exists st,
    wall_geometry self grid = Ok st /\
    length (vertices st) = (8 * total_pixels grid)%nat /\
    length (faces st) = (12 * total_pixels grid)%nat.
Proof.
  intros Ho. eexists. split; [apply (wall_geometry_eq self ox oy grid Ho)|].
  cbn [vertices faces]. split.
  - apply length_cuboids.
  - apply length_faces_from.
Qed.

(** C4: with [B] boundary cells the loop leaves [8 * B] vertices and
    [12 * B] faces, the floor adds 4 vertices and 2 faces, and without any
    deduplication the assembled mesh has [8 * B + 4] vertices and
    [12 * B + 2] triangles. *)
Theorem geometry_counts (self : Map3DConverter) (ox oy : Q) (grid : ndarray Z) :
  origin self = [ox; oy] ->
  let B := total_pixels grid in
  exists st floor,
    wall_geometry self grid = Ok st /\
    create_floor_mesh self grid = Ok floor /\
    length (vertices st) = (8 * B)%nat /\
    length (faces st) = (12 * B)%nat /\
    length (trimesh.vertices floor) = 4%nat /\
    length (trimesh.faces floor) = 2%nat /\
    length (vertices st ++ trimesh.vertices floor) = (8 * B + 4)%nat /\
    length (faces st ++ trimesh.faces floor) = (12 * B + 2)%nat /\
    (load_and_process_map self = Ok grid ->
     exists mesh,
       convert_to_3d (fun m => m) (fun m => m) self = Ok mesh /\
       length (trimesh.vertices mesh) = (8 * B + 4)%nat /\
       length (trimesh.faces mesh) = (12 * B + 2)%nat).
Proof.
  intros Ho. cbv zeta.
  destruct (create_wall_mesh_id self ox oy grid Ho) as (st & Hst & Hv & Hf).
  exists st. eexists.
  split; [exact Hst|].
  split; [apply (create_floor_mesh_eq self ox oy grid Ho)|].
  cbn [trimesh.vertices trimesh.faces floor_vertices floor_faces].
  rewrite !length_app, Hv, Hf. cbn [length].
  repeat (split; [reflexivity|]).
  intros Hload. unfold convert_to_3d, create_wall_mesh.
  rewrite Hload. cbn [mbind result_bind]. rewrite Hst. cbn [mbind result_bind].
  rewrite (create_floor_mesh_eq self ox oy grid Ho).
  destruct (decide (length (vertices st) = 0%nat)) as [Hz | Hnz];
    cbn [mbind result_bind mret result_ret]; eexists; (split; [reflexivity|]).
  - cbn [trimesh.vertices trimesh.faces floor_vertices floor_faces length].
    rewrite Hz in Hv. split; lia.
  - unfold trimesh.add.
    cbn [trimesh.vertices trimesh.faces floor_vertices floor_faces].
    rewrite !length_app, length_fmap, Hv, Hf. cbn [length]. split; reflexivity.
Qed.

Lemma geometry_counts_witness :
  exists mesh,
    convert_to_3d (fun m => m) (fun m => m) demo = Ok mesh /\
    length (trimesh.vertices mesh) = 28%nat /\
    length (trimesh.faces mesh) = 38%nat.
Proof.
  destruct (geometry_counts demo 0 0 [[1; 0]; [1; 1]] eq_refl)
    as (st & floor & _ & _ & _ & _ & _ & _ & _ & _ & H).
  apply H. reflexivity.
Defined.


Section Cube.
Variables (x y cs h : Q) (base : Z) (vs : list vertex).
Hypothesis Hcs : (0 < cs)%Q.
Hypothesis Hh : (0 < h)%Q.
Hypothesis Hvs : forall k, 0 <= k < 8 ->
  trimesh.corner vs (base + k)
  = cube_vertices x (x + cs) y (y + cs) 0 h !! Z.to_nat k.

Lemma cube_normals :
  Forall2 (has_normal vs) (cube_faces base) (inward_normals cs h).
Proof.
  unfold cube_faces, inward_normals.
  repeat (apply Forall2_cons_2;
          [ eexists; split;
            [ unfold trimesh.face_normal; cbn [fst snd];
              rewrite !Hvs by lia; reflexivity
            | unfold vec3_eq, trimesh.cross, trimesh.vsub; cbn [vx vy vz];
              repeat split; ring ] |]).
  apply Forall2_nil_2.
Qed.

Lemma cube_inward :
  Forall (wound_inward vs (Vec3 (x + cs / 2) (y + cs / 2) (h / 2))%Q)
         (cube_faces base).
Proof.
  assert (HV : (0 < cs * cs * h)%Q).
  { repeat apply Qmult_lt_0_compat; assumption. }
  unfold cube_faces.
  repeat (apply Forall_cons_2;
          [ eexists; split;
            [ unfold face_side, trimesh.face_normal; cbn [fst snd];
              rewrite !Hvs by lia; reflexivity
            | unfold trimesh.dot, trimesh.cross, trimesh.vsub; cbn [vx vy vz];
              match goal with
              | |- (?s < 0)%Q =>
                  let E := fresh in
                  assert (E : (s == - ((1 # 2) * (cs * cs * h)))%Q) by field;
                  rewrite E; lra
              end ] |]).
  apply Forall_nil_2.
Qed.
End Cube.

Lemma corner_cuboids (ox oy r h : Q) (grid_rows : Z) (pixels : list (Z * Z))
    (i : nat) (pixel : Z * Z) (k : Z) :
  pixels !! i = Some pixel -> 0 <= k < 8 ->
  trimesh.corner (mjoin (cuboid ox oy r h grid_rows <$> pixels))
                 (8 * Z.of_nat i + k)
  = cuboid ox oy r h grid_rows pixel !! Z.to_nat k.
Proof.
  intros Hi Hk. unfold trimesh.corner.
  assert ((0 <=? 8 * Z.of_nat i + k) = true) as -> by (apply Z.leb_le; lia).
  replace (Z.to_nat (8 * Z.of_nat i + k)) with (8 * i + Z.to_nat k)%nat by lia.
  apply lookup_cuboids; [assumption | lia].
Qed.

Lemma block_faces_from {A} (base_idx : Z) (pixels : list A) (i : nat) (a : A) :
  pixels !! i = Some a ->
  take 12 (drop (12 * i) (faces_from base_idx pixels))
  = cube_faces (base_idx + 8 * Z.of_nat i).
Proof.
  revert base_idx i. induction pixels as [|p pixels IH]; intros base_idx i Hi;
    [discriminate|].
  cbn [faces_from]. destruct i as [|i].
  - rewrite Z.add_0_r. reflexivity.
  - rewrite drop_app_ge by (cbn [length cube_faces]; lia).
    cbn [length cube_faces].
    replace (12 * S i - 12)%nat with (12 * i)%nat by lia.
    rewrite (IH (base_idx + 8) i Hi). f_equal. lia.
Qed.

(** C5, as stated, fails.  On the sample map (resolution 1, wall height 1)
    the bottom triangle (0, 1, 2) of the first cuboid has its normal towards
    +Z, exactly as the upward floor triangle (0, 1, 2) has, and none of the
    twelve triangles of that cuboid faces away from the cuboid's centre. *)
Lemma cuboid_not_outward :
  exists grid st floor,
    load_and_process_map demo = Ok grid /\
    wall_geometry demo grid = Ok st /\
    create_floor_mesh demo grid = Ok floor /\
    wall_pixels grid !! 0%nat = Some (0, 0) /\
    take 12 (faces st) = cube_faces 0 /\
    (exists n, trimesh.face_normal (vertices st) (0, 1, 2) = Some n /\
               (0 < vz n)%Q) /\
    (exists n, trimesh.face_normal (trimesh.vertices floor) (0, 1, 2) = Some n /\
               (0 < vz n)%Q) /\
    ~ wound_outward (vertices st) (cuboid_centre 0 0 1 1 2 (0, 0)) (0, 1, 2) /\
    Forall (fun f => ~ wound_outward (vertices st)
                       (cuboid_centre 0 0 1 1 2 (0, 0)) f)
           (cube_faces 0).
Proof.
  exists [[1; 0]; [1; 1]]. do 2 eexists.
  split; [reflexivity|].
  split; [vm_compute; reflexivity|].
  split; [vm_compute; reflexivity|].
  split; [reflexivity|]. split; [reflexivity|].
  split; [eexists; split; [vm_compute; reflexivity | reflexivity]|].
  split; [eexists; split; [vm_compute; reflexivity | reflexivity]|].
  match goal with
  | |- _ /\ ?P => assert (Hall : P)
  end.
  { unfold cube_faces.
    repeat (apply Forall_cons_2;
            [ intros (s & Hs & Hpos); vm_compute in Hs;
              injection Hs as <-; vm_compute in Hpos; discriminate Hpos |]).
    apply Forall_nil_2. }
  split; [|exact Hall].
  apply Forall_cons_1 in Hall. apply Hall.
Qed.

(** C5 (amended): for [r > 0] and [h > 0] the twelve triangles of every
    emitted cuboid are wound consistently, and the normal of each winding
    points into the cuboid: +Z on the bottom face, -Z on the top face, and
    towards the centre on the four sides. *)
Theorem cuboid_winding_inward (self : Map3DConverter) (ox oy : Q)
    (grid : ndarray Z) (i : nat) (pixel : Z * Z) :
  origin self = [ox; oy] ->
  (0 < resolution self)%Q ->
  (0 < wall_height self)%Q ->
  wall_pixels grid !! i = Some pixel ->
  let r := resolution self in
  let h := wall_height self in
  let cs := cube_size r in
  let base_idx := 8 * Z.of_nat i in
  let centre := cuboid_centre ox oy r h (Z.of_nat (length grid)) pixel in
  exists st,
    wall_geometry self grid = Ok st /\
    take 12 (drop (12 * i) (faces st)) = cube_faces base_idx /\
    Forall2 (has_normal (vertices st)) (cube_faces base_idx)
            (inward_normals cs h) /\
    (0 < cs * cs)%Q /\ (0 < cs * h)%Q /\
    Forall (wound_inward (vertices st) centre) (cube_faces base_idx).
Proof.
  intros Ho Hr Hh Hi. cbv zeta.
  assert (Hcs : (0 < cube_size (resolution self))%Q) by (unfold cube_size; lra).
  eexists. split; [apply (wall_geometry_eq self ox oy grid Ho)|].
  cbn [vertices faces].
  split; [apply (block_faces_from 0 _ _ _ Hi)|].
  assert (Hvs : forall k, 0 <= k < 8 ->
            trimesh.corner
              (mjoin (cuboid ox oy (resolution self) (wall_height self)
                             (Z.of_nat (length grid)) <$> wall_pixels grid))
              (8 * Z.of_nat i + k)
            = cuboid ox oy (resolution self) (wall_height self)
                     (Z.of_nat (length grid)) pixel !! Z.to_nat k).
  { intros k Hk. now apply corner_cuboids. }
  split.
  { apply (cube_normals (world_x ox (resolution self) pixel.2)
                        (world_y oy (resolution self) (Z.of_nat (length grid))
                                 pixel.1)).
    exact Hvs. }
  split; [now apply Qmult_lt_0_compat|].
  split; [now apply Qmult_lt_0_compat|].
  apply (cube_inward (world_x ox (resolution self) pixel.2)
                     (world_y oy (resolution self) (Z.of_nat (length grid))
                              pixel.1)); assumption.
Qed.

Lemma cuboid_winding_inward_witness :
  exists st,
    wall_geometry demo [[1; 0]; [1; 1]] = Ok st /\
    Forall (wound_inward (vertices st) (cuboid_centre 0 0 1 1 2 (1, 0)))
           (cube_faces 8).
Proof.
  destruct (cuboid_winding_inward demo 0 0 [[1; 0]; [1; 1]] 1 (1, 0) eq_refl)
    as (st & Hst & _ & _ & _ & _ & Hin); try reflexivity.
  exists st. split; assumption.
Defined.

(** ** Degenerate input and the floor *)

Lemma wall_pixels_all_free (grid : ndarray Z) :
  Forall (Forall (fun x => x = Free)) grid -> wall_pixels grid = [].
Proof.
  intros Hfree. destruct (wall_pixels grid) as [|[r c] rest] eqn:Hpx;
    [reflexivity|].
  assert (Hin : (r, c) ∈ wall_pixels grid) by (rewrite Hpx; left).
  apply elem_of_wall_pixels in Hin as (i & j & _ & _ & Hb).
  apply is_boundary_iff in Hb as [(_ & _ & x & Hx & Hne) _].
  rewrite !Nat2Z.id in Hx. unfold np.item in Hx.
  destruct (grid !! i) as [row|] eqn:Hrow; [|discriminate]. simpl in Hx.
  rewrite Forall_lookup in Hfree. specialize (Hfree i row Hrow).
  rewrite Forall_lookup in Hfree. specialize (Hfree j x Hx).
  contradiction.
Qed.

Lemma floor_corners_distinct (x0 y0 W H : Q) :
  ~ (W == 0)%Q -> ~ (H == 0)%Q ->
  all_distinct (floor_vertices x0 (x0 + W) y0 (y0 + H)).
Proof.
  intros HW HH i j a b Ha Hb (Hx & Hy & _). unfold floor_vertices in Ha, Hb.
  destruct i as [|[|[|[|i]]]]; try discriminate Ha;
    destruct j as [|[|[|[|j]]]]; try discriminate Hb; try reflexivity;
    cbn in Ha, Hb; injection Ha as <-; injection Hb as <-;
    cbn [vx vy] in Hx, Hy; exfalso;
    first [ apply HW; lra | apply HH; lra ].
Qed.

Lemma scaled_extent_nonzero (n : Z) (r : Q) :
  0 < n -> ~ (r == 0)%Q -> ~ (inject_Z n * r == 0)%Q.
Proof.
  intros Hn Hr Hz. apply Qmult_integral in Hz as [Hz | Hz]; [|contradiction].
  assert (0 < inject_Z n)%Q.
  { change 0%Q with (inject_Z 0). now rewrite <- Zlt_Qlt. }
  lra.
Qed.

Lemma floor_area_positive (rows cols : Z) (r : Q) :
  0 < rows -> 0 < cols -> ~ (r == 0)%Q ->
  (0 < (inject_Z cols * r) * (inject_Z rows * r))%Q.
Proof.
  intros Hrows Hcols Hr.
  assert (Hc : (0 < inject_Z cols)%Q).
  { change 0%Q with (inject_Z 0). now rewrite <- Zlt_Qlt. }
  assert (Hw : (0 < inject_Z rows)%Q).
  { change 0%Q with (inject_Z 0). now rewrite <- Zlt_Qlt. }
  assert (Hrr : (0 < r * r)%Q).
  { destruct (Qlt_le_dec 0 r) as [Hpos | Hle].
    - now apply Qmult_lt_0_compat.
    - assert (Hneg : (r < 0)%Q).
      { apply Qle_lteq in Hle as [Hlt | Heq]; [exact Hlt|]. now elim Hr. }
      assert (E : (r * r == (- r) * (- r))%Q) by ring. rewrite E.
      apply Qmult_lt_0_compat; lra. }
  assert (E : (inject_Z cols * r * (inject_Z rows * r)
               == (inject_Z cols * inject_Z rows) * (r * r))%Q) by ring.
  rewrite E.
  apply Qmult_lt_0_compat; [now apply Qmult_lt_0_compat | exact Hrr].
Qed.

Lemma shape_map2d {A B} (f : A -> B) (arr : ndarray A) :
  np.shape (np.map2d f arr) = np.shape arr.
Proof.
  unfold np.shape, np.map2d. rewrite length_fmap.
  destruct arr as [|row arr]; [reflexivity|]. cbn [fmap list_fmap hd].
  now rewrite length_fmap.
Qed.


(** C6: when every cell classifies Free (on a non-empty raster, with a
    resolution other than 0) there is no boundary cell, the wall synthesizer
    leaves empty vertex and face lists and returns [None] (a normal return,
    not an exception), and the assembled mesh is the floor quad alone: 4
    pairwise distinct vertices and 2 triangles. *)
Theorem all_free_floor_only
    (remove_duplicate_faces fix_normals : trimesh.Trimesh -> trimesh.Trimesh)
    (self : Map3DConverter) (ox oy : Q) (map_img : ndarray Z) :
  map_png self = Some map_img ->
  origin self = [ox; oy] ->
  Forall (Forall (fun p => classify (occupied_thresh self) (free_thresh self)
                                    (normalize p) = Free)) map_img ->
  ~ (resolution self == 0)%Q ->
  0 < (np.shape map_img).1 ->
  0 < (np.shape map_img).2 ->
  exists grid floor,
    load_and_process_map self = Ok grid /\
    total_pixels grid = 0%nat /\
    wall_geometry self grid
    = Ok {| vertices := []; faces := []; vertex_count := 0 |} /\
    create_wall_mesh remove_duplicate_faces fix_normals self grid = Ok None /\
    (forall e, create_wall_mesh remove_duplicate_faces fix_normals self grid
               <> Raise e) /\
    create_floor_mesh self grid = Ok floor /\
    convert_to_3d remove_duplicate_faces fix_normals self = Ok floor /\
    all_distinct (trimesh.vertices floor) /\
    length (trimesh.vertices floor) = 4%nat /\
    length (trimesh.faces floor) = 2%nat.
Proof.
  intros Himg Ho Hfree Hres Hrows Hcols.
  pose proof (load_and_process_map_cells self map_img Himg) as Hload.
  set (grid := np.map2d _ map_img) in Hload.
  assert (Hshape : np.shape grid = np.shape map_img) by apply shape_map2d.
  assert (Hpx : wall_pixels grid = []).
  { apply wall_pixels_all_free. unfold grid, np.map2d.
    apply Forall_fmap. eapply Forall_impl; [exact Hfree|].
    intros row Hrow. apply Forall_fmap. exact Hrow. }
  assert (Hgeo : wall_geometry self grid
                 = Ok {| vertices := []; faces := []; vertex_count := 0 |}).
  { rewrite (wall_geometry_eq self ox oy grid Ho).
    unfold total_pixels. rewrite Hpx. reflexivity. }
  assert (Hwall : create_wall_mesh remove_duplicate_faces fix_normals self grid
                  = Ok None).
  { unfold create_wall_mesh. rewrite Hgeo. reflexivity. }
  exists grid. eexists.
  split; [exact Hload|].
  split; [unfold total_pixels; now rewrite Hpx|].
  split; [exact Hgeo|].
  split; [exact Hwall|].
  split; [intros e; rewrite Hwall; discriminate|].
  split; [apply (create_floor_mesh_eq self ox oy grid Ho)|].
  split.
  { unfold convert_to_3d. rewrite Hload. cbn [mbind result_bind].
    rewrite Hwall. cbn [mbind result_bind].
    rewrite (create_floor_mesh_eq self ox oy grid Ho). reflexivity. }
  cbn [trimesh.vertices trimesh.faces]. split; [|split; reflexivity].
  rewrite Hshape.
  apply floor_corners_distinct; now apply scaled_extent_nonzero.
Qed.

Lemma all_free_floor_only_witness :
  exists floor,
    convert_to_3d (fun m => m) (fun m => m) all_free = Ok floor /\
    all_distinct (trimesh.vertices floor) /\
    length (trimesh.vertices floor) = 4%nat /\
    length (trimesh.faces floor) = 2%nat.
Proof.
  destruct (all_free_floor_only (fun m => m) (fun m => m) all_free 0 0
              [[255; 254]; [230; 255]] eq_refl eq_refl)
    as (grid & floor & _ & _ & _ & _ & _ & _ & Hconv & Hd & Hv & Hf).
  - repeat constructor.
  - discriminate.
  - reflexivity.
  - reflexivity.
  - exists floor. repeat split; assumption.
Defined.

Lemma floor_covers_rectangle (x0 y0 W H : Q) (p : vec3) :
  (0 < W)%Q -> (0 < H)%Q ->
  mesh_covers {| trimesh.vertices := floor_vertices x0 (x0 + W) y0 (y0 + H);
                 trimesh.faces := floor_faces |} p
  <-> (x0 <= vx p <= x0 + W /\ y0 <= vy p <= y0 + H)%Q.
Proof.
  intros HW HH. destruct p as [px py pz].
  unfold mesh_covers, floor_faces. cbn [trimesh.vertices trimesh.faces vx vy].
  rewrite !Exists_cons, Exists_nil.
  unfold triangle_covers, floor_vertices. cbn [fst snd]. split.
  - intros [(a & b & c & Ha & Hb & Hc & H1 & H2 & H3)
           | [(a & b & c & Ha & Hb & Hc & H1 & H2 & H3) | []]];
      injection Ha as <-; injection Hb as <-; injection Hc as <-;
      unfold edge_side in *; cbn [vx vy] in *.
    + assert (E1 : (0 <= W * (py - y0))%Q) by lra.
      assert (E2 : (0 <= H * (x0 + W - px))%Q) by lra.
      assert (E3 : (0 <= W * (y0 + H - py) - H * (x0 + W - px))%Q) by lra.
      clear H1 H2 H3. nra.
    + assert (E1 : (0 <= W * (py - y0) - H * (px - x0))%Q) by lra.
      assert (E2 : (0 <= W * (y0 + H - py))%Q) by lra.
      assert (E3 : (0 <= H * (px - x0))%Q) by lra.
      clear H1 H2 H3. nra.
  - intros [[Hx1 Hx2] [Hy1 Hy2]].
    destruct (Qlt_le_dec (W * (py - y0)) (H * (px - x0))) as [Hlt | Hge].
    + left. do 3 eexists. repeat (split; [reflexivity|]).
      unfold edge_side; cbn [vx vy]. repeat split; nra.
    + right. left. do 3 eexists. repeat (split; [reflexivity|]).
      unfold edge_side; cbn [vx vy]. repeat split; nra.
Qed.

(** With an origin of two coordinates the assembly always succeeds, and
    the assembled mesh ends with the floor mesh. *)
Lemma convert_to_3d_ends_with_floor
    (remove_duplicate_faces fix_normals : trimesh.Trimesh -> trimesh.Trimesh)
    (self : Map3DConverter) (ox oy : Q) (grid : ndarray Z)
    (floor : trimesh.Trimesh) :
  origin self = [ox; oy] ->
  load_and_process_map self = Ok grid ->
  create_floor_mesh self grid = Ok floor ->
  exists mesh wall_vs wall_fs,
    convert_to_3d remove_duplicate_faces fix_normals self = Ok mesh /\
    trimesh.vertices mesh = wall_vs ++ trimesh.vertices floor /\
    trimesh.faces mesh
    = wall_fs ++ (trimesh.shift (Z.of_nat (length wall_vs))
                    <$> trimesh.faces floor).
Proof.
  intros Ho Hload Hfloor.
  unfold convert_to_3d. rewrite Hload. cbn [mbind result_bind].
  destruct (create_wall_mesh remove_duplicate_faces fix_normals self grid)
    as [[wall|]|e] eqn:Hwall; cbn [mbind result_bind].
  - rewrite Hfloor. cbn [mbind result_bind mret result_ret].
    eexists. exists (trimesh.vertices wall), (trimesh.faces wall).
    split; [reflexivity|]. split; reflexivity.
  - rewrite Hfloor. cbn [mbind result_bind mret result_ret].
    eexists. exists [], []. split; [reflexivity|].
    split; [reflexivity|]. cbn [app length Z.of_nat].
    rewrite <- (list_fmap_id (trimesh.faces floor)) at 1.
    apply list_fmap_ext. intros _ [[a b] c] _. unfold trimesh.shift.
    cbn [fst snd]. now rewrite !Z.add_0_r.
  - exfalso. unfold create_wall_mesh in Hwall.
    rewrite (wall_geometry_eq self ox oy grid Ho) in Hwall.
    cbn [mbind result_bind] in Hwall.
    destruct (decide _) in Hwall; discriminate Hwall.
Qed.

(** C8: for a non-empty grid and a resolution other than 0 the floor is one
    quad at Z = 0 with the four distinct corners (ox, oy),
    (ox + cols * r, oy), (ox + cols * r, oy + rows * r), (ox, oy + rows * r),
    split into the triangles (0, 1, 2) and (0, 2, 3), whose normals are
    (0, 0, cols * r * rows * r): upward.  For [r > 0] the two triangles cover
    exactly the rectangle [ox, ox + cols * r] x [oy, oy + rows * r].  The
    assembled mesh ends with the floor whether or not there is a wall
    mesh. *)
Theorem floor_quad
    (remove_duplicate_faces fix_normals : trimesh.Trimesh -> trimesh.Trimesh)
    (self : Map3DConverter) (ox oy : Q) (grid : ndarray Z) :
  origin self = [ox; oy] ->
  ~ (resolution self == 0)%Q ->
  0 < (np.shape grid).1 ->
  0 < (np.shape grid).2 ->
  let rows := (np.shape grid).1 in
  let cols := (np.shape grid).2 in
  let r := resolution self in
  let x_max := (ox + inject_Z cols * r)%Q in
  let y_max := (oy + inject_Z rows * r)%Q in
  exists floor,
    create_floor_mesh self grid = Ok floor /\
    trimesh.vertices floor
    = [Vec3 ox oy 0; Vec3 x_max oy 0; Vec3 x_max y_max 0; Vec3 ox y_max 0] /\
    trimesh.faces floor = [(0, 1, 2); (0, 2, 3)] /\
    all_distinct (trimesh.vertices floor) /\
    Forall (fun v => vz v = 0%Q) (trimesh.vertices floor) /\
    Forall (fun f => has_normal (trimesh.vertices floor) f
                       (Vec3 0 0 ((inject_Z cols * r) * (inject_Z rows * r))))
           (trimesh.faces floor) /\
    (0 < (inject_Z cols * r) * (inject_Z rows * r))%Q /\
    ((0 < r)%Q ->
     forall p, mesh_covers floor p
               <-> (ox <= vx p <= x_max /\ oy <= vy p <= y_max)%Q) /\
    (load_and_process_map self = Ok grid ->
     exists mesh wall_vs wall_fs,
       convert_to_3d remove_duplicate_faces fix_normals self = Ok mesh /\
       trimesh.vertices mesh = wall_vs ++ trimesh.vertices floor /\
       trimesh.faces mesh
       = wall_fs ++ (trimesh.shift (Z.of_nat (length wall_vs))
                       <$> trimesh.faces floor)).
Proof.
  intros Ho Hres Hrows Hcols. cbv zeta.
  eexists. split; [apply (create_floor_mesh_eq self ox oy grid Ho)|].
  cbn [trimesh.vertices trimesh.faces].
  split; [reflexivity|]. split; [reflexivity|].
  split.
  { apply floor_corners_distinct; now apply scaled_extent_nonzero. }
  split; [repeat constructor|].
  split.
  { unfold floor_faces, floor_vertices.
    repeat (apply Forall_cons_2;
            [ eexists; split;
              [ reflexivity
              | unfold vec3_eq, trimesh.cross, trimesh.vsub; cbn [vx vy vz];
                repeat split; ring ] |]).
    apply Forall_nil_2. }
  split; [now apply floor_area_positive|].
  split.
  { intros Hr p. apply floor_covers_rectangle.
    - apply Qmult_lt_0_compat; [|assumption].
      change 0%Q with (inject_Z 0). now rewrite <- Zlt_Qlt.
    - apply Qmult_lt_0_compat; [|assumption].
      change 0%Q with (inject_Z 0). now rewrite <- Zlt_Qlt. }
  intros Hload.
  exact (convert_to_3d_ends_with_floor
           remove_duplicate_faces fix_normals self ox oy grid _ Ho Hload
           (create_floor_mesh_eq self ox oy grid Ho)).
Qed.

Lemma floor_quad_witness :
  exists floor,
    create_floor_mesh demo [[1; 0]; [1; 1]] = Ok floor /\
    all_distinct (trimesh.vertices floor) /\
    mesh_covers floor (Vec3 1 (1 # 2) 0) /\
    exists mesh wall_vs wall_fs,
      convert_to_3d (fun m => m) (fun m => m) demo = Ok mesh /\
      trimesh.vertices mesh = wall_vs ++ trimesh.vertices floor /\
      trimesh.faces mesh
      = wall_fs ++ (trimesh.shift (Z.of_nat (length wall_vs))
                      <$> trimesh.faces floor).
Proof.
  destruct (floor_quad (fun m => m) (fun m => m) demo 0 0 [[1; 0]; [1; 1]]
              eq_refl)
    as (floor & Hfloor & _ & _ & Hdist & _ & _ & _ & Hcov & Halways);
    [discriminate | reflexivity | reflexivity |].
  exists floor. split; [exact Hfloor|]. split; [exact Hdist|]. split.
  - apply Hcov; [reflexivity|]. cbn. repeat split; intros H; discriminate H.
  - apply Halways. reflexivity.
Defined.


(** ** Metadata handling *)


(** C9, as stated, fails: metadata with resolution -1 is accepted, the map
    is classified, and the conversion returns a mesh. *)
Lemma nonpositive_resolution_accepted :
  exists self mesh,
    __init__ (Some [[0]]) negative_resolution 1 = Ok self /\
    (resolution self <= 0)%Q /\
    load_and_process_map self = Ok [[Occupied]] /\
    total_pixels [[Occupied]] = 1%nat /\
    convert_to_3d (fun m => m) (fun m => m) self = Ok mesh /\
    length (trimesh.vertices mesh) = 12%nat /\
    length (trimesh.faces mesh) = 14%nat.
Proof.
  do 2 eexists. split; [reflexivity|].
  split; [intros H; discriminate H|].
  repeat (split; [reflexivity|]). reflexivity.
Qed.

(** C9 (amended): metadata with a resolution of 0 or less is not rejected.
    Whatever the resolution, with an origin of at least two coordinates and
    a readable image the conversion classifies the map, builds the wall and
    floor geometry and returns a mesh.  A missing [resolution] or [origin]
    key makes the constructor raise a [KeyError], before any grid
    processing. *)
Theorem metadata_not_validated
    (remove_duplicate_faces fix_normals : trimesh.Trimesh -> trimesh.Trimesh)
    (png : option (ndarray Z)) (md : map_metadata) (wall_height : Q) :
  (md_resolution md = None ->
   __init__ png md wall_height = Raise (KeyError "resolution")) /\
  (forall r, md_resolution md = Some r -> md_origin md = None ->
             __init__ png md wall_height = Raise (KeyError "origin")) /\
  (forall r o map_img ox oy,
      md_resolution md = Some r -> md_origin md = Some o ->
      take 2 o = [ox; oy] -> png = Some map_img ->
      exists self grid st floor mesh,
        __init__ png md wall_height = Ok self /\
        resolution self = r /\
        load_and_process_map self = Ok grid /\
        wall_geometry self grid = Ok st /\
        create_floor_mesh self grid = Ok floor /\
        convert_to_3d remove_duplicate_faces fix_normals self = Ok mesh).
Proof.
  split; [|split].
  - intros Hres. unfold __init__. now rewrite Hres.
  - intros r Hres Hor. unfold __init__. now rewrite Hres, Hor.
  - intros r o map_img ox oy Hres Hor Ho Hpng.
    unfold __init__. rewrite Hres, Hor.
    cbn [getitem mbind result_bind mret result_ret].
    set (self := Build_Map3DConverter _ _ _ _ _ _).
    assert (Himg : map_png self = Some map_img) by exact Hpng.
    assert (Horigin : origin self = [ox; oy]) by exact Ho.
    pose proof (load_and_process_map_cells self map_img Himg) as Hload.
    set (grid := np.map2d _ map_img) in Hload.
    destruct (convert_to_3d_ends_with_floor
                remove_duplicate_faces fix_normals self ox oy grid _
                Horigin Hload (create_floor_mesh_eq self ox oy grid Horigin))
      as (mesh & _ & _ & Hmesh & _).
    exists self, grid. do 2 eexists. exists mesh.
    split; [reflexivity|]. split; [reflexivity|]. split; [exact Hload|].
    split; [apply (wall_geometry_eq self ox oy grid Horigin)|].
    split; [apply (create_floor_mesh_eq self ox oy grid Horigin)|].
    exact Hmesh.
Qed.

Lemma metadata_not_validated_witness :
  exists self grid st floor mesh,
    __init__ (Some [[0]]) negative_resolution 1 = Ok self /\
    resolution self = (-1)%Q /\
    load_and_process_map self = Ok grid /\
    wall_geometry self grid = Ok st /\
    create_floor_mesh self grid = Ok floor /\
    convert_to_3d (fun m => m) (fun m => m) self = Ok mesh.
Proof.
  destruct (metadata_not_validated (fun m => m) (fun m => m) (Some [[0]])
              negative_resolution 1) as (_ & _ & H).
  apply (H (-1)%Q [0; 0; 0]%Q [[0]] 0%Q 0%Q); reflexivity.
Defined.

(** * Further properties of the code *)

(** ** Classifier and boundary mask *)

Lemma classify_binary (occ free v : Q) :
  classify occ free v = Free \/ classify occ free v = Occupied.
Proof.
  rewrite classify_closed_form. destruct (Qle_bool _ _); [now left | now right].
Qed.

Lemma normalize_mono (p q : Z) : p <= q -> (normalize p <= normalize q)%Q.
Proof.
  intros Hpq. unfold normalize.
  apply Qmult_le_compat_r; [now rewrite <- Zle_Qle | discriminate].
Qed.

Lemma normalize_unit_range (p : Z) :
  0 <= p <= 255 -> (0 <= normalize p <= 1)%Q.
Proof.
  intros [H0 H255]. unfold normalize, Qle, Qdiv, Qmult, Qinv. simpl. lia.
Qed.

(** X1: the occupancy grid has the shape of the image (the same number of
    rows, each of the same length) and every cell of it is 0 (Free) or 1
    (Occupied). *)
Theorem occupancy_grid_shape_binary (self : Map3DConverter) (map_img : ndarray Z) :
  map_png self = Some map_img ->
  exists grid,
    load_and_process_map self = Ok grid /\
    length grid = length map_img /\
    (forall r, length <$> grid !! r = length <$> map_img !! r) /\
    (forall r c, is_Some (np.item grid r c) <-> is_Some (np.item map_img r c)) /\
    (forall r c x, np.item grid r c = Some x -> x = Free \/ x = Occupied).
Proof.
  intros Himg. eexists. split; [apply (load_and_process_map_cells _ _ Himg)|].
  unfold np.map2d at 1 2. split; [apply length_fmap|]. split.
  - intros r. rewrite list_lookup_fmap. destruct (map_img !! r); simpl; [|reflexivity].
    now rewrite length_fmap.
  - split.
    + intros r c. rewrite item_map2d. apply fmap_is_Some.
    + intros r c x. rewrite item_map2d.
      destruct (np.item map_img r c) as [p|]; [|discriminate].
      intros [= <-]. apply classify_binary.
Qed.

(** X2: classification is monotone in the pixel value: if a pixel is
    Occupied, every pixel of the image that is not brighter is Occupied too,
    and if a pixel is Free every pixel that is not darker is Free. *)
Theorem darker_pixel_stays_occupied (self : Map3DConverter) (map_img : ndarray Z)
    (r c r' c' : nat) (p q : Z) :
  map_png self = Some map_img ->
  np.item map_img r c = Some p ->
  np.item map_img r' c' = Some q ->
  p <= q ->
  exists grid,
    load_and_process_map self = Ok grid /\
    (np.item grid r' c' = Some Occupied -> np.item grid r c = Some Occupied) /\
    (np.item grid r c = Some Free -> np.item grid r' c' = Some Free).
Proof.
  intros Himg Hp Hq Hpq. eexists.
  split; [apply (load_and_process_map_cells _ _ Himg)|].
  rewrite !item_map2d, Hp, Hq. cbn [fmap option_fmap option_map].
  rewrite !classify_closed_form.
  pose proof (normalize_mono p q Hpq) as Hmono.
  destruct (Qle_bool (1 - free_thresh self) (normalize p)) eqn:Ep;
    destruct (Qle_bool (1 - free_thresh self) (normalize q)) eqn:Eq;
    (split; intros H; try reflexivity; try discriminate H);
    apply Qle_bool_iff in Ep; apply Qle_bool_false in Eq; lra.
Qed.

Lemma default_free_cut (p : Z) :
  Qle_bool (1 - (196 # 1000))%Q (normalize p) = (206 <=? p).
Proof.
  destruct (206 <=? p) eqn:Hp.
  - apply Z.leb_le in Hp. apply Qle_bool_iff.
    unfold normalize, Qle, Qdiv, Qmult, Qinv, Qminus, Qplus, Qopp. simpl. lia.
  - apply Z.leb_gt in Hp. apply Qle_bool_false.
    unfold normalize, Qlt, Qdiv, Qmult, Qinv, Qminus, Qplus, Qopp. simpl. lia.
Qed.

(** X3: metadata without [free_thresh] gets the default 0.196 (and 0.45 for
    a missing [occupied_thresh]); the grid is then Free exactly at the
    pixels of value 206 or more. *)
Theorem default_thresholds_pixel_cut (png : option (ndarray Z))
    (md : map_metadata) (wall_height r : Q) (o : list Q) (map_img : ndarray Z) :
  md_resolution md = Some r ->
  md_origin md = Some o ->
  md_free_thresh md = None ->
  png = Some map_img ->
  exists self,
    __init__ png md wall_height = Ok self /\
    free_thresh self = (196 # 1000)%Q /\
    (md_occupied_thresh md = None -> occupied_thresh self = (45 # 100)%Q) /\
    load_and_process_map self
    = Ok (np.map2d (fun p => if 206 <=? p then Free else Occupied) map_img).
Proof.
  intros Hres Hor Hfree ->. unfold __init__. rewrite Hres, Hor, Hfree.
  cbn [getitem mbind result_bind mret result_ret default].
  eexists. split; [reflexivity|]. split; [reflexivity|].
  split; [now intros ->|].
  erewrite load_and_process_map_cells by reflexivity.
  cbn [free_thresh occupied_thresh]. f_equal. unfold np.map2d.
  apply list_fmap_ext. intros _ row _. apply list_fmap_ext. intros _ p _.
  now rewrite classify_closed_form, default_free_cut.
Qed.

Lemma default_thresholds_pixel_cut_witness :
  exists self,
    __init__ (Some [[205; 206]]) negative_resolution 1 = Ok self /\
    load_and_process_map self = Ok [[Occupied; Free]].
Proof.
  destruct (default_thresholds_pixel_cut (Some [[205; 206]]) negative_resolution
              1 (-1)%Q [0; 0; 0]%Q [[205; 206]] eq_refl eq_refl eq_refl eq_refl)
    as (self & Hinit & _ & _ & Hload).
  exists self. split; [exact Hinit | exact Hload].
Defined.

(** An occupied cell with no occupied cell above it in its column, going up
    from any occupied cell, is a boundary cell. *)
Lemma occupied_has_boundary (grid : ndarray Z) (r c : nat) :
  occupied_at grid (Z.of_nat r) (Z.of_nat c) ->
  exists r' c', is_boundary grid r' c'.
Proof.
  induction r as [|r IH]; intros Hocc.
  - exists 0%nat, c. apply is_boundary_iff. split; [assumption|].
    intros Hint. destruct (Hint (-1) 0) as [Hneg _]; lia.
  - destruct (forallb (fun d => ndimage.padded false (np.astype_bool grid)
                                  (Z.of_nat (S r) + d.1) (Z.of_nat c + d.2))
                      (ndimage.structure_offsets (np.astype_bool (np.ones 3 3))))
      eqn:Her.
    + apply eroded_interior in Her. apply IH.
      specialize (Her (-1) 0 ltac:(lia) ltac:(lia)).
      replace (Z.of_nat (S r) + -1) with (Z.of_nat r) in Her by lia.
      now rewrite Z.add_0_r in Her.
    + exists (S r), c. apply is_boundary_iff. split; [assumption|].
      intros Hint. apply eroded_interior in Hint. congruence.
Qed.

Lemma wall_pixels_nil_iff (grid : ndarray Z) :
  wall_pixels grid = [] <-> ~ has_occupied grid.
Proof.
  split.
  - intros Hnil (r & c & Hocc).
    destruct (occupied_has_boundary grid r c Hocc) as (r' & c' & Hb).
    assert (Hin : (Z.of_nat r', Z.of_nat c') ∈ wall_pixels grid).
    { apply elem_of_wall_pixels. now exists r', c'. }
    rewrite Hnil in Hin. inversion Hin.
  - intros Hnone. destruct (wall_pixels grid) as [|[r c] rest] eqn:Hpx;
      [reflexivity|].
    assert (Hin : (r, c) ∈ wall_pixels grid) by (rewrite Hpx; left).
    apply elem_of_wall_pixels in Hin as (i & j & _ & _ & Hb).
    apply is_boundary_iff in Hb as [Hocc _].
    exfalso. apply Hnone. now exists i, j.
Qed.

(** X4: [create_wall_mesh] returns [None] exactly when the grid has no
    Occupied cell; as soon as one cell is Occupied it returns the cleaned-up
    mesh of the loop's vertex and face lists. *)
Theorem wall_mesh_none_iff_no_occupied
    (remove_duplicate_faces fix_normals : trimesh.Trimesh -> trimesh.Trimesh)
    (self : Map3DConverter) (ox oy : Q) (grid : ndarray Z) :
  origin self = [ox; oy] ->
  (create_wall_mesh remove_duplicate_faces fix_normals self grid = Ok None
   <-> ~ has_occupied grid) /\
  (has_occupied grid ->
   exists st,
     wall_geometry self grid = Ok st /\
     create_wall_mesh remove_duplicate_faces fix_normals self grid
     = Ok (Some (fix_normals
                   (remove_duplicate_faces
                      {| trimesh.vertices := vertices st;
                         trimesh.faces := faces st |})))).
Proof.
  intros Ho.
  destruct (create_wall_mesh_id self ox oy grid Ho) as (st & Hst & Hv & _).
  unfold create_wall_mesh. rewrite Hst. cbn [mbind result_bind].
  assert (Hlen : length (vertices st) = 0%nat <-> ~ has_occupied grid).
  { rewrite Hv, <- wall_pixels_nil_iff. unfold total_pixels.
    destruct (wall_pixels grid); simpl; split; try reflexivity; try discriminate;
      lia. }
  split.
  - destruct (decide (length (vertices st) = 0%nat)) as [Hz | Hnz].
    + split; [intros _; now apply Hlen | reflexivity].
    + split; [discriminate | intros Hno; now apply Hlen in Hno].
  - intros Hocc. exists st. split; [reflexivity|].
    destruct (decide (length (vertices st) = 0%nat)) as [Hz | Hnz];
      [|reflexivity].
    apply Hlen in Hz. contradiction.
Qed.

Lemma wall_mesh_none_iff_no_occupied_witness :
  create_wall_mesh (fun m => m) (fun m => m) all_free [[0; 0]; [0; 0]] = Ok None
  <-> ~ has_occupied [[0; 0]; [0; 0]].
Proof.
  apply (wall_mesh_none_iff_no_occupied (fun m => m) (fun m => m) all_free 0 0
           [[0; 0]; [0; 0]] eq_refl).
Defined.

Lemma true_indices_sorted (row : list bool) (c0 : Z) :
  StronglySorted Z.lt (np.true_indices c0 row) /\
  Forall (fun c => c0 <= c) (np.true_indices c0 row).
Proof.
  revert c0. induction row as [|b row IH]; intros c0; cbn [np.true_indices].
  - split; constructor.
  - destruct (IH (c0 + 1)) as [Hs Hf].
    assert (Hf' : Forall (fun c => c0 < c) (np.true_indices (c0 + 1) row)).
    { eapply Forall_impl; [exact Hf|]. intros c Hc. cbn in Hc. lia. }
    destruct b; cbn [app].
    + split.
      * apply StronglySorted_cons. split; assumption.
      * constructor; [lia|]. eapply Forall_impl; [exact Hf'|].
        intros c Hc. cbn in Hc. lia.
    + split; [assumption|]. eapply Forall_impl; [exact Hf'|].
      intros c Hc. cbn in Hc. lia.
Qed.

Lemma where_from_sorted (mask : ndarray bool) (r0 : Z) :
  StronglySorted row_major_lt (np.where_from r0 mask) /\
  Forall (fun p => r0 <= p.1) (np.where_from r0 mask).
Proof.
  revert r0. induction mask as [|row mask IH]; intros r0; cbn [np.where_from].
  - split; constructor.
  - destruct (IH (r0 + 1)) as [Hs Hf].
    destruct (true_indices_sorted row 0) as [Hrow _].
    split.
    + apply StronglySorted_app. split; [|split].
      * intros p q Hp Hq. apply list_elem_of_fmap in Hp as (c & -> & _).
        rewrite Forall_forall in Hf. specialize (Hf q Hq). cbn in Hf.
        left. cbn. lia.
      * clear -Hrow. induction Hrow as [|c l Hl IHl Hall]; [constructor|].
        rewrite fmap_cons. apply StronglySorted_cons. split; [|exact IHl].
        apply Forall_fmap. eapply Forall_impl; [exact Hall|].
        intros c' Hc'. right. cbn. split; [reflexivity | exact Hc'].
      * exact Hs.
    + apply Forall_app. split.
      * apply Forall_fmap, Forall_forall. intros c _. cbn. lia.
      * eapply Forall_impl; [exact Hf|]. intros p Hp. cbn in Hp. lia.
Qed.

Lemma row_major_sorted_NoDup (l : list (Z * Z)) :
  StronglySorted row_major_lt l -> NoDup l.
Proof.
  induction 1 as [|p l Hl IH Hall]; [constructor|].
  constructor; [|exact IH].
  intros Hin. rewrite Forall_forall in Hall. specialize (Hall p Hin).
  destruct Hall as [Hlt | [_ Hlt]]; lia.
Qed.

Lemma length_true_indices (row : list bool) (c0 : Z) :
  (length (np.true_indices c0 row) <= length row)%nat.
Proof.
  revert c0. induction row as [|b row IH]; intros c0; cbn [np.true_indices];
    [reflexivity|].
  rewrite length_app. specialize (IH (c0 + 1)).
  destruct b; cbn [length] in *; lia.
Qed.

Lemma length_where_from (mask : ndarray bool) (r0 : Z) (width : nat) :
  Forall (fun row => (length row <= width)%nat) mask ->
  (length (np.where_from r0 mask) <= length mask * width)%nat.
Proof.
  intros Hw. revert r0. induction Hw as [|row mask Hrow Hmask IH]; intros r0;
    cbn [np.where_from]; [reflexivity|].
  rewrite length_app, length_fmap. specialize (IH (r0 + 1)).
  pose proof (length_true_indices row 0). cbn [length]. lia.
Qed.

Lemma wall_edges_shape (grid : ndarray Z) (height width : nat) :
  np.is_array height width grid ->
  (length (wall_edges grid) <= height)%nat /\
  Forall (fun row => (length row <= width)%nat) (wall_edges grid).
Proof.
  intros [Hh Hw]. unfold wall_edges, np.zip2d. split.
  - rewrite length_zip_with. unfold np.astype_bool, np.map2d.
    rewrite length_fmap. lia.
  - apply Forall_lookup. intros i mrow Hi.
    apply lookup_zip_with_Some in Hi as (x & y & -> & Hx & _).
    unfold np.astype_bool, np.map2d in Hx.
    rewrite list_lookup_fmap in Hx.
    destruct (grid !! i) as [grow|] eqn:Hgrow; [|discriminate].
    injection Hx as <-. rewrite length_zip_with, length_fmap.
    rewrite Forall_lookup in Hw. specialize (Hw i grow Hgrow). cbn in Hw. lia.
Qed.

Lemma wall_pixels_in_grid (grid : ndarray Z) (height width : nat) (r c : Z) :
  np.is_array height width grid ->
  (r, c) ∈ wall_pixels grid ->
  0 <= r < Z.of_nat height /\ 0 <= c < Z.of_nat width.
Proof.
  intros [Hh Hw] Hin.
  apply elem_of_wall_pixels in Hin as (i & j & -> & -> & Hb).
  apply is_boundary_iff in Hb as [(_ & _ & x & Hx & _) _].
  rewrite !Nat2Z.id in Hx. unfold np.item in Hx.
  destruct (grid !! i) as [row|] eqn:Hrow; [|discriminate]. cbn in Hx.
  pose proof (lookup_lt_Some _ _ _ Hrow).
  pose proof (lookup_lt_Some _ _ _ Hx) as Hj.
  rewrite Forall_lookup in Hw. rewrite (Hw i row Hrow) in Hj. lia.
Qed.

(** X5: the wall pixels come in strictly increasing row-major order, so none
    is listed twice; each lies inside the grid, and there are at most
    rows * columns of them. *)
Theorem wall_pixels_row_major (grid : ndarray Z) (height width : nat) :
  np.is_array height width grid ->
  StronglySorted row_major_lt (wall_pixels grid) /\
  NoDup (wall_pixels grid) /\
  Forall (fun p => 0 <= p.1 < Z.of_nat height /\ 0 <= p.2 < Z.of_nat width)
         (wall_pixels grid) /\
  (total_pixels grid <= height * width)%nat.
Proof.
  intros Harr.
  assert (Hs : StronglySorted row_major_lt (wall_pixels grid))
    by apply where_from_sorted.
  split; [exact Hs|]. split; [now apply row_major_sorted_NoDup|]. split.
  - apply Forall_forall. intros [r c] Hin. cbn.
    eapply wall_pixels_in_grid; eassumption.
  - destruct (wall_edges_shape grid height width Harr) as [Hlen Hrows].
    unfold total_pixels, wall_pixels, np.where_.
    pose proof (length_where_from (wall_edges grid) 0 width Hrows). nia.
Qed.

Lemma wall_pixels_row_major_witness :
  NoDup (wall_pixels (np.ones 3 3)) /\ (total_pixels (np.ones 3 3) <= 3 * 3)%nat.
Proof.
  assert (Harr : np.is_array 3 3 (np.ones 3 3)).
  { split; [reflexivity|]. repeat constructor. }
  destruct (wall_pixels_row_major (np.ones 3 3) 3 3 Harr) as (_ & Hn & _ & Hl).
  split; assumption.
Defined.

Lemma occupied_at_full (grid : ndarray Z) (height width : nat) (r c : Z) :
  np.is_array height width grid ->
  Forall (Forall (fun x => x <> 0)) grid ->
  0 <= r < Z.of_nat height -> 0 <= c < Z.of_nat width ->
  occupied_at grid r c.
Proof.
  intros [Hh Hw] Hfull Hr Hc. unfold occupied_at, np.item.
  split; [lia|]. split; [lia|].
  destruct (lookup_lt_is_Some_2 grid (Z.to_nat r)) as [row Hrow]; [lia|].
  rewrite Forall_lookup in Hw. pose proof (Hw _ _ Hrow) as Hlen. cbn in Hlen.
  destruct (lookup_lt_is_Some_2 row (Z.to_nat c)) as [x Hx]; [lia|].
  exists x. rewrite Hrow. cbn. split; [exact Hx|].
  rewrite Forall_lookup in Hfull. specialize (Hfull _ _ Hrow).
  rewrite Forall_lookup in Hfull. exact (Hfull _ _ Hx).
Qed.

(** X12: in a grid whose cells are all Occupied the boundary cells are
    exactly the cells of the first and last row and column. *)
Theorem full_grid_boundary_is_border (grid : ndarray Z) (height width : nat) :
  np.is_array height width grid ->
  Forall (Forall (fun x => x <> 0)) grid ->
  forall r c : nat,
    is_boundary grid r c
    <-> (r < height)%nat /\ (c < width)%nat /\
        (r = 0 \/ c = 0 \/ r = height - 1 \/ c = width - 1)%nat.
Proof.
  intros Harr Hfull r c. rewrite is_boundary_iff. split.
  - intros [Hocc Hnot].
    assert (Hin : (Z.of_nat r, Z.of_nat c) ∈ wall_pixels grid).
    { apply elem_of_wall_pixels. exists r, c. repeat split.
      now apply is_boundary_iff. }
    destruct (wall_pixels_in_grid grid height width _ _ Harr Hin) as [Hr Hc].
    split; [lia|]. split; [lia|].
    destruct (decide (r = 0 \/ c = 0 \/ r = height - 1 \/ c = width - 1)%nat)
      as [Hb | Hnb]; [exact Hb|].
    exfalso. apply Hnot. intros dr dc Hdr Hdc.
    apply (occupied_at_full grid height width _ _ Harr Hfull); lia.
  - intros (Hr & Hc & Hb). split.
    + apply (occupied_at_full grid height width _ _ Harr Hfull); lia.
    + now apply (border_not_interior grid height width r c Harr).
Qed.

Lemma full_grid_boundary_is_border_witness :
  is_boundary (np.ones 4 5) 3 2 /\ ~ is_boundary (np.ones 4 5) 2 2.
Proof.
  assert (Harr : np.is_array 4 5 (np.ones 4 5)).
  { split; [reflexivity|]. repeat constructor. }
  assert (Hfull : Forall (Forall (fun x => x <> 0)) (np.ones 4 5)).
  { repeat constructor; discriminate. }
  split.
  - apply (full_grid_boundary_is_border _ 4 5 Harr Hfull). lia.
  - intros H. apply (full_grid_boundary_is_border _ 4 5 Harr Hfull) in H. lia.
Defined.

(** ** Geometry *)

Lemma face_in_range_mono (n m : Z) (f : face) :
  n <= m -> face_in_range n f -> face_in_range m f.
Proof. unfold face_in_range. lia. Qed.

Lemma faces_from_in_range {A} (base_idx : Z) (pixels : list A) :
  0 <= base_idx ->
  Forall (face_in_range (base_idx + 8 * Z.of_nat (length pixels)))
         (faces_from base_idx pixels).
Proof.
  revert base_idx. induction pixels as [|p pixels IH]; intros base_idx Hb;
    cbn [faces_from]; [constructor|].
  apply Forall_app. split.
  - unfold cube_faces, face_in_range. rewrite length_cons.
    repeat (apply Forall_cons_2; [cbn [fst snd]; lia|]). apply Forall_nil_2.
  - eapply Forall_impl; [apply IH; lia|].
    intros f. apply face_in_range_mono. rewrite length_cons. lia.
Qed.

Lemma add_well_indexed (a b : trimesh.Trimesh) :
  well_indexed a -> well_indexed b -> well_indexed (trimesh.add a b).
Proof.
  unfold well_indexed, trimesh.add. cbn [trimesh.vertices trimesh.faces].
  intros Ha Hb. rewrite length_app, Nat2Z.inj_add. apply Forall_app. split.
  - eapply Forall_impl; [exact Ha|]. intros f. apply face_in_range_mono. lia.
  - apply Forall_fmap. eapply Forall_impl; [exact Hb|].
    intros [[i j] k]. unfold compose, face_in_range, trimesh.shift.
    cbn [fst snd]. lia.
Qed.

(** X6: when the loop ends [vertex_count] is the number of vertices and every
    face index addresses a vertex; if the two clean-up passes keep meshes
    well indexed, so is the assembled mesh (the floor indices are offset by
    the number of wall vertices). *)
Theorem mesh_well_indexed
    (remove_duplicate_faces fix_normals : trimesh.Trimesh -> trimesh.Trimesh)
    (self : Map3DConverter) (ox oy : Q) (grid : ndarray Z) :
  origin self = [ox; oy] ->
  load_and_process_map self = Ok grid ->
  (forall m, well_indexed m -> well_indexed (remove_duplicate_faces m)) ->
  (forall m, well_indexed m -> well_indexed (fix_normals m)) ->
  exists st mesh,
    wall_geometry self grid = Ok st /\
    vertex_count st = Z.of_nat (length (vertices st)) /\
    well_indexed {| trimesh.vertices := vertices st;
                    trimesh.faces := faces st |} /\
    convert_to_3d remove_duplicate_faces fix_normals self = Ok mesh /\
    well_indexed mesh.
Proof.
  intros Ho Hload Hrd Hfn.
  pose proof (wall_geometry_eq self ox oy grid Ho) as Hgeo.
  set (st := Build_wall_state _ _ _) in Hgeo.
  assert (Hlen : length (vertices st) = (8 * total_pixels grid)%nat)
    by apply length_cuboids.
  assert (Hraw : well_indexed {| trimesh.vertices := vertices st;
                                 trimesh.faces := faces st |}).
  { unfold well_indexed. cbn [trimesh.vertices trimesh.faces]. rewrite Hlen.
    pose proof (faces_from_in_range 0 (wall_pixels grid) ltac:(lia)) as Hf.
    unfold total_pixels. eapply Forall_impl; [exact Hf|].
    intros f. apply face_in_range_mono. lia. }
  assert (Hfloor : forall x0 x1 y0 y1,
             well_indexed {| trimesh.vertices := floor_vertices x0 x1 y0 y1;
                             trimesh.faces := floor_faces |}).
  { intros. unfold well_indexed, floor_faces, face_in_range.
    repeat (apply Forall_cons_2; [cbn; lia|]). apply Forall_nil_2. }
  assert (Hconv : exists mesh,
             convert_to_3d remove_duplicate_faces fix_normals self = Ok mesh /\
             well_indexed mesh).
  { unfold convert_to_3d, create_wall_mesh. rewrite Hload.
    cbn [mbind result_bind]. rewrite Hgeo. cbn [mbind result_bind].
    rewrite (create_floor_mesh_eq self ox oy grid Ho).
    destruct (decide (length (vertices st) = 0%nat));
      cbn [mbind result_bind mret result_ret]; eexists;
      (split; [reflexivity|]).
    - apply Hfloor.
    - apply add_well_indexed; [|apply Hfloor]. apply Hfn, Hrd, Hraw. }
  destruct Hconv as (mesh & Hmesh & Hwf).
  exists st, mesh. split; [exact Hgeo|].
  split; [cbn [vertex_count st]; lia|].
  split; [exact Hraw|]. split; assumption.
Qed.

Lemma mesh_well_indexed_witness :
  exists mesh,
    convert_to_3d (fun m => m) (fun m => m) demo = Ok mesh /\ well_indexed mesh.
Proof.
  destruct (mesh_well_indexed (fun m => m) (fun m => m) demo 0 0
              [[1; 0]; [1; 1]] eq_refl eq_refl (fun m H => H) (fun m H => H))
    as (st & mesh & _ & _ & _ & Hconv & Hwf).
  exists mesh. split; assumption.
Defined.

Lemma cuboid_x_range (ox oy r h : Q) (grid_rows : Z) (pixel : Z * Z) (v : vertex) :
  (0 <= r)%Q -> v ∈ cuboid ox oy r h grid_rows pixel ->
  (world_x ox r pixel.2 <= vx v <= world_x ox r pixel.2 + cube_size r)%Q /\
  (world_y oy r grid_rows pixel.1 <= vy v
   <= world_y oy r grid_rows pixel.1 + cube_size r)%Q /\
  (vz v = 0%Q \/ vz v = h).
Proof.
  intros Hr Hv. assert (0 <= cube_size r)%Q by (unfold cube_size; lra).
  unfold cuboid, cube_vertices in Hv.
  rewrite !elem_of_cons, elem_of_nil in Hv.
  repeat (destruct Hv as [-> | Hv]; [cbn [vx vy vz]; repeat split; try lra; tauto|]).
  contradiction.
Qed.

Lemma world_x_step (ox r : Q) (c c' : Z) :
  (0 < r)%Q -> c < c' ->
  (world_x ox r c + cube_size r < world_x ox r c')%Q.
Proof.
  intros Hr Hc. unfold world_x, cube_size.
  assert (H1 : (inject_Z c + 1 <= inject_Z c')%Q).
  { change 1%Q with (inject_Z 1). rewrite <- inject_Z_plus, <- Zle_Qle. lia. }
  assert (H2 : ((inject_Z c + 1) * r <= inject_Z c' * r)%Q).
  { apply Qmult_le_compat_r; [exact H1 | lra]. }
  lra.
Qed.

Lemma world_y_step (oy r : Q) (grid_rows row row' : Z) :
  (0 < r)%Q -> row < row' ->
  (world_y oy r grid_rows row' + cube_size r < world_y oy r grid_rows row)%Q.
Proof.
  intros Hr Hc. unfold world_y, cube_size.
  assert (H1 : (inject_Z (grid_rows - row' - 1) + 1
                <= inject_Z (grid_rows - row - 1))%Q).
  { change 1%Q with (inject_Z 1). rewrite <- inject_Z_plus, <- Zle_Qle. lia. }
  assert (H2 : ((inject_Z (grid_rows - row' - 1) + 1) * r
                <= inject_Z (grid_rows - row - 1) * r)%Q).
  { apply Qmult_le_compat_r; [exact H1 | lra]. }
  lra.
Qed.

Lemma distinct_cuboids_separated (ox oy r h : Q) (grid_rows : Z) (p q : Z * Z) :
  (0 < r)%Q -> p <> q ->
  separated (cuboid ox oy r h grid_rows p) (cuboid ox oy r h grid_rows q).
Proof.
  intros Hr Hpq. destruct p as [pr pc], q as [qr qc].
  assert (Hr0 : (0 <= r)%Q) by lra.
  assert (Hcase : pc < qc \/ qc < pc \/ qr < pr \/ pr < qr).
  { destruct (Z.eq_dec pc qc) as [-> |]; [|lia].
    destruct (Z.eq_dec pr qr) as [-> |]; [congruence | lia]. }
  unfold separated.
  destruct Hcase as [Hc | [Hc | [Hc | Hc]]];
    [left | right; left | right; right; left | right; right; right];
    intros u v Hu Hv;
    apply (cuboid_x_range _ _ _ _ _ _ _ Hr0) in Hu;
    apply (cuboid_x_range _ _ _ _ _ _ _ Hr0) in Hv; cbn [fst snd] in *.
  - pose proof (world_x_step ox r pc qc Hr Hc). lra.
  - pose proof (world_x_step ox r qc pc Hr Hc). lra.
  - pose proof (world_y_step oy r grid_rows qr pr Hr Hc). lra.
  - pose proof (world_y_step oy r grid_rows pr qr Hr Hc). lra.
Qed.

(** X7: for a positive resolution the cuboids of two different wall pixels
    are strictly separated along X or along Y: the 0.9 shrink leaves a gap
    between any two of them. *)
Theorem wall_cuboids_disjoint (self : Map3DConverter) (ox oy : Q)
    (grid : ndarray Z) (i j : nat) :
  origin self = [ox; oy] ->
  (0 < resolution self)%Q ->
  i <> j ->
  (i < total_pixels grid)%nat -> (j < total_pixels grid)%nat ->
  exists st,
    wall_geometry self grid = Ok st /\
    separated (take 8 (drop (8 * i) (vertices st)))
              (take 8 (drop (8 * j) (vertices st))).
Proof.
  intros Ho Hr Hij Hi Hj.
  destruct (lookup_lt_is_Some_2 (wall_pixels grid) i Hi) as [p Hp].
  destruct (lookup_lt_is_Some_2 (wall_pixels grid) j Hj) as [q Hq].
  eexists. split; [apply (wall_geometry_eq self ox oy grid Ho)|].
  cbn [vertices].
  rewrite (block_cuboids _ _ _ _ _ _ _ _ Hp), (block_cuboids _ _ _ _ _ _ _ _ Hq).
  apply distinct_cuboids_separated; [exact Hr|].
  intros ->. apply Hij.
  assert (Hnd : NoDup (wall_pixels grid))
    by (apply row_major_sorted_NoDup, where_from_sorted).
  eapply NoDup_lookup; eassumption.
Qed.

Lemma wall_cuboids_disjoint_witness :
  exists st,
    wall_geometry demo [[1; 0]; [1; 1]] = Ok st /\
    separated (take 8 (drop (8 * 0) (vertices st)))
              (take 8 (drop (8 * 2) (vertices st))).
Proof.
  apply (wall_cuboids_disjoint demo 0 0 [[1; 0]; [1; 1]] 0 2 eq_refl).
  - reflexivity.
  - discriminate.
  - vm_compute. lia.
  - vm_compute. lia.
Defined.

Lemma elem_of_cuboids (ox oy r h : Q) (grid_rows : Z) (pixels : list (Z * Z))
    (v : vertex) :
  v ∈ mjoin (cuboid ox oy r h grid_rows <$> pixels)
  <-> exists pixel, pixel ∈ pixels /\ v ∈ cuboid ox oy r h grid_rows pixel.
Proof.
  induction pixels as [|p pixels IH].
  - split; [intros H; inversion H | intros (p & H & _); inversion H].
  - rewrite fmap_cons, mjoin_cons, elem_of_app, IH. split.
    + intros [Hv | (q & Hq & Hv)].
      * exists p. split; [left | exact Hv].
      * exists q. split; [now right | exact Hv].
    + intros (q & Hq & Hv). apply elem_of_cons in Hq as [-> | Hq].
      * now left.
      * right. now exists q.
Qed.

Lemma shape_is_array {A} (grid : ndarray A) (height width : nat) :
  np.is_array height width grid -> (0 < height)%nat ->
  np.shape grid = (Z.of_nat height, Z.of_nat width).
Proof.
  intros [Hh Hw] Hpos. unfold np.shape. destruct grid as [|row grid].
  - cbn in Hh. lia.
  - apply Forall_cons_1 in Hw as [Hrow _]. cbn [hd]. now rewrite Hh, Hrow.
Qed.

Lemma scaled_cell_range (n k : Z) (r : Q) :
  (0 < r)%Q -> 0 <= k < n ->
  (0 <= inject_Z k * r)%Q /\
  (inject_Z k * r + cube_size r <= inject_Z n * r)%Q.
Proof.
  intros Hr Hk. split.
  - apply Qmult_le_0_compat; [|lra].
    change 0%Q with (inject_Z 0). rewrite <- Zle_Qle. lia.
  - assert (H1 : (inject_Z k + 1 <= inject_Z n)%Q).
    { change 1%Q with (inject_Z 1). rewrite <- inject_Z_plus, <- Zle_Qle. lia. }
    assert (H2 : ((inject_Z k + 1) * r <= inject_Z n * r)%Q).
    { apply Qmult_le_compat_r; [exact H1 | lra]. }
    unfold cube_size. lra.
Qed.

(** X8: for a positive resolution and a non-negative wall height every wall
    vertex lies above the floor quad and between heights 0 and
    [wall_height]. *)
Theorem walls_stand_on_floor (self : Map3DConverter) (ox oy : Q)
    (grid : ndarray Z) (height width : nat) :
  origin self = [ox; oy] ->
  (0 < resolution self)%Q ->
  (0 <= wall_height self)%Q ->
  np.is_array height width grid ->
  exists st floor,
    wall_geometry self grid = Ok st /\
    create_floor_mesh self grid = Ok floor /\
    Forall (fun v => mesh_covers floor v /\ (0 <= vz v <= wall_height self)%Q)
           (vertices st).
Proof.
  intros Ho Hr Hh Harr. do 2 eexists.
  split; [apply (wall_geometry_eq self ox oy grid Ho)|].
  split; [apply (create_floor_mesh_eq self ox oy grid Ho)|].
  cbn [vertices]. apply Forall_forall. intros v Hv.
  apply elem_of_cuboids in Hv as ([row col] & Hpx & Hv).
  destruct (wall_pixels_in_grid grid height width row col Harr Hpx)
    as [Hrow Hcol].
  assert (Hpos : (0 < height)%nat) by lia.
  rewrite (shape_is_array grid height width Harr Hpos). cbn [fst snd].
  destruct Harr as [Hlen _]. rewrite Hlen in Hv.
  apply cuboid_x_range in Hv as (Hx & Hy & Hz); [|lra]. cbn [fst snd] in Hx, Hy.
  unfold world_x in Hx. unfold world_y in Hy.
  destruct (scaled_cell_range (Z.of_nat width) col _ Hr Hcol) as [Hx0 Hx1].
  destruct (scaled_cell_range (Z.of_nat height) (Z.of_nat height - row - 1)
              _ Hr ltac:(lia)) as [Hy0 Hy1].
  assert (HW : (0 < inject_Z (Z.of_nat width) * resolution self)%Q).
  { apply Qmult_lt_0_compat; [|assumption].
    change 0%Q with (inject_Z 0). rewrite <- Zlt_Qlt. lia. }
  assert (HH : (0 < inject_Z (Z.of_nat height) * resolution self)%Q).
  { apply Qmult_lt_0_compat; [|assumption].
    change 0%Q with (inject_Z 0). rewrite <- Zlt_Qlt. lia. }
  split.
  - apply floor_covers_rectangle; [assumption | assumption |]. lra.
  - destruct Hz as [-> | ->]; lra.
Qed.

Lemma walls_stand_on_floor_witness :
  exists st floor,
    wall_geometry demo [[1; 0]; [1; 1]] = Ok st /\
    create_floor_mesh demo [[1; 0]; [1; 1]] = Ok floor /\
    Forall (fun v => mesh_covers floor v /\ (0 <= vz v <= wall_height demo)%Q)
           (vertices st).
Proof.
  apply (walls_stand_on_floor demo 0 0 [[1; 0]; [1; 1]] 2 2 eq_refl).
  - reflexivity.
  - discriminate.
  - split; [reflexivity|]. repeat constructor.
Defined.

Lemma convert_to_3d_unreadable
    (remove_duplicate_faces fix_normals : trimesh.Trimesh -> trimesh.Trimesh)
    (self : Map3DConverter) :
  map_png self = None ->
  convert_to_3d remove_duplicate_faces fix_normals self = Raise FileNotFoundError.
Proof.
  intros Himg. unfold convert_to_3d, load_and_process_map. now rewrite Himg.
Qed.

Lemma pixel_cube_short_origin (self : Map3DConverter) (height : Z)
    (pixel : Z * Z) :
  (length (origin self) < 2)%nat ->
  pixel_cube self height pixel = Raise IndexError.
Proof.
  intros Hshort. destruct pixel as [row col]. unfold pixel_cube.
  remember (origin self) as o eqn:Ho.
  destruct o as [|x [|y o]]; cbn in Hshort; try lia; reflexivity.
Qed.

Lemma create_floor_mesh_short_origin (self : Map3DConverter) (grid : ndarray Z) :
  (length (origin self) < 2)%nat ->
  create_floor_mesh self grid = Raise IndexError.
Proof.
  intros Hshort. unfold create_floor_mesh.
  destruct (np.shape grid) as [height width].
  remember (origin self) as o eqn:Ho.
  destruct o as [|x [|y o]]; cbn in Hshort; try lia; reflexivity.
Qed.

Lemma wall_geometry_short_origin (self : Map3DConverter) (grid : ndarray Z) :
  (length (origin self) < 2)%nat ->
  wall_geometry self grid
  = if decide (wall_pixels grid = [])
    then Ok {| vertices := []; faces := []; vertex_count := 0 |}
    else Raise IndexError.
Proof.
  intros Hshort. unfold wall_geometry.
  destruct (np.shape grid) as [height width].
  destruct (wall_pixels grid) as [|pixel rest].
  - reflexivity.
  - cbn [for_each]. unfold wall_body.
    now rewrite (pixel_cube_short_origin self height pixel Hshort).
Qed.

Lemma convert_to_3d_short_origin
    (remove_duplicate_faces fix_normals : trimesh.Trimesh -> trimesh.Trimesh)
    (self : Map3DConverter) (map_img : ndarray Z) :
  map_png self = Some map_img ->
  (length (origin self) < 2)%nat ->
  convert_to_3d remove_duplicate_faces fix_normals self = Raise IndexError.
Proof.
  intros Himg Hshort. unfold convert_to_3d.
  rewrite (load_and_process_map_cells self map_img Himg).
  cbn [mbind result_bind]. set (grid := np.map2d _ map_img).
  unfold create_wall_mesh.
  rewrite (wall_geometry_short_origin self grid Hshort).
  destruct (decide (wall_pixels grid = [])); [|reflexivity].
  cbn [mbind result_bind vertices length].
  destruct (decide (0 = 0)%nat) as [_|Hne]; [|contradiction].
  cbn [mret result_ret mbind result_bind].
  now rewrite (create_floor_mesh_short_origin self grid Hshort).
Qed.

(** X9: how a conversion ends, for metadata holding both keys: with an
    unreadable image it raises [FileNotFoundError]; with a readable image
    and an origin of fewer than two coordinates it raises [IndexError]
    (only once the map has been classified); otherwise it returns a mesh. *)
Theorem conversion_outcome
    (remove_duplicate_faces fix_normals : trimesh.Trimesh -> trimesh.Trimesh)
    (png : option (ndarray Z)) (md : map_metadata) (wall_height r : Q)
    (o : list Q) :
  md_resolution md = Some r ->
  md_origin md = Some o ->
  exists self,
    __init__ png md wall_height = Ok self /\
    origin self = take 2 o /\
    match png with
    | None =>
        convert_to_3d remove_duplicate_faces fix_normals self
        = Raise FileNotFoundError
    | Some _ =>
        if decide (length o < 2)%nat
        then convert_to_3d remove_duplicate_faces fix_normals self
             = Raise IndexError
        else exists mesh,
               convert_to_3d remove_duplicate_faces fix_normals self = Ok mesh
    end.
Proof.
  intros Hres Hor. unfold __init__. rewrite Hres, Hor.
  cbn [getitem mbind result_bind mret result_ret].
  set (self := Build_Map3DConverter _ _ _ _ _ _).
  exists self. split; [reflexivity|]. split; [reflexivity|].
  destruct png as [map_img|].
  - destruct (decide (length o < 2)%nat) as [Hshort | Hlong].
    + apply (convert_to_3d_short_origin _ _ self map_img eq_refl).
      cbn [origin self]. rewrite length_take. lia.
    + assert (Ho : exists ox oy, origin self = [ox; oy]).
      { cbn [origin self]. destruct o as [|x [|y o]]; cbn in Hlong; try lia.
        now exists x, y. }
      destruct Ho as (ox & oy & Ho).
      pose proof (load_and_process_map_cells self map_img eq_refl) as Hload.
      destruct (convert_to_3d_ends_with_floor
                  remove_duplicate_faces fix_normals self ox oy _ _ Ho Hload
                  (create_floor_mesh_eq self ox oy _ Ho))
        as (mesh & _ & _ & Hmesh & _).
      now exists mesh.
  - now apply convert_to_3d_unreadable.
Qed.

Lemma conversion_outcome_witness :
  exists self,
    __init__ (Some [[0]])
             {| md_resolution := Some 1%Q; md_origin := Some [5%Q];
                md_occupied_thresh := None; md_free_thresh := None |} 1
    = Ok self /\
    convert_to_3d (fun m => m) (fun m => m) self = Raise IndexError.
Proof.
  destruct (conversion_outcome (fun m => m) (fun m => m) (Some [[0]])
              {| md_resolution := Some 1%Q; md_origin := Some [5%Q];
                 md_occupied_thresh := None; md_free_thresh := None |}
              1 1%Q [5%Q] eq_refl eq_refl) as (self & Hinit & _ & Hconv).
  exists self. split; [exact Hinit | exact Hconv].
Defined.

(** X10: thresholds are not range-checked: with [free_thresh >= 1] every
    pixel (of value 0 or more) is Free, whatever the map shows, and the
    result is the floor alone. *)
Theorem free_thresh_saturated
    (remove_duplicate_faces fix_normals : trimesh.Trimesh -> trimesh.Trimesh)
    (self : Map3DConverter) (ox oy : Q) (map_img : ndarray Z) :
  map_png self = Some map_img ->
  origin self = [ox; oy] ->
  (1 <= free_thresh self)%Q ->
  Forall (Forall (fun p => 0 <= p)) map_img ->
  exists grid floor,
    load_and_process_map self = Ok grid /\
    Forall (Forall (fun x => x = Free)) grid /\
    create_floor_mesh self grid = Ok floor /\
    convert_to_3d remove_duplicate_faces fix_normals self = Ok floor.
Proof.
  intros Himg Ho Hfree Hpix.
  pose proof (load_and_process_map_cells self map_img Himg) as Hload.
  set (grid := np.map2d _ map_img) in Hload.
  assert (Hgrid : Forall (Forall (fun x => x = Free)) grid).
  { unfold grid, np.map2d. apply Forall_fmap.
    eapply Forall_impl; [exact Hpix|]. intros row Hrow. apply Forall_fmap.
    eapply Forall_impl; [exact Hrow|]. intros p Hp. cbn.
    rewrite classify_closed_form.
    assert (Hle : (1 - free_thresh self <= normalize p)%Q).
    { assert (0 <= normalize p)%Q.
      { unfold normalize. apply Qle_shift_div_l; [reflexivity|].
        rewrite Qmult_0_l. change 0%Q with (inject_Z 0).
        now rewrite <- Zle_Qle. }
      lra. }
    apply Qle_bool_iff in Hle. now rewrite Hle. }
  exists grid. eexists. split; [exact Hload|]. split; [exact Hgrid|].
  split; [apply (create_floor_mesh_eq self ox oy grid Ho)|].
  unfold convert_to_3d, create_wall_mesh. rewrite Hload.
  cbn [mbind result_bind].
  rewrite (wall_geometry_eq self ox oy grid Ho).
  unfold total_pixels. rewrite (wall_pixels_all_free grid Hgrid).
  cbn [mbind result_bind fmap list_fmap mjoin list_join vertices length].
  destruct (decide (0 = 0)%nat) as [_|Hne]; [|contradiction].
  cbn [mbind result_bind mret result_ret].
  now rewrite (create_floor_mesh_eq self ox oy grid Ho).
Qed.

Lemma free_thresh_saturated_witness :
  exists grid floor,
    load_and_process_map saturated = Ok grid /\
    convert_to_3d (fun m => m) (fun m => m) saturated = Ok floor /\
    length (trimesh.faces floor) = 2%nat.
Proof.
  destruct (free_thresh_saturated (fun m => m) (fun m => m) saturated
              0 0 [[0; 10]] eq_refl eq_refl)
    as (grid & floor & Hload & _ & Hfloor & Hconv).
  - discriminate.
  - repeat constructor; lia.
  - exists grid, floor. split; [exact Hload|]. split; [exact Hconv|].
    cbv in Hfloor. now injection Hfloor as <-.
Defined.

Lemma cuboid_moved (ox oy dx dy r h : Q) (grid_rows : Z) (pixel : Z * Z) :
  Forall2 (moved_by dx dy)
          (cuboid ox oy r h grid_rows pixel)
          (cuboid (ox + dx) (oy + dy) r h grid_rows pixel).
Proof.
  unfold cuboid, cube_vertices, world_x, world_y.
  repeat (apply Forall2_cons_2;
          [unfold moved_by, vec3_eq; cbn [vx vy vz]; repeat split; ring|]).
  apply Forall2_nil_2.
Qed.

(** X11: moving the origin by (dx, dy) moves every wall and floor vertex by
    (dx, dy) and changes neither the faces nor the classification. *)
Theorem origin_shift_translates (self : Map3DConverter) (ox oy dx dy : Q)
    (grid : ndarray Z) :
  origin self = [ox; oy] ->
  let self' := with_origin [(ox + dx)%Q; (oy + dy)%Q] self in
  load_and_process_map self' = load_and_process_map self /\
  exists st st' floor floor',
    wall_geometry self grid = Ok st /\
    wall_geometry self' grid = Ok st' /\
    create_floor_mesh self grid = Ok floor /\
    create_floor_mesh self' grid = Ok floor' /\
    faces st' = faces st /\
    trimesh.faces floor' = trimesh.faces floor /\
    Forall2 (moved_by dx dy) (vertices st) (vertices st') /\
    Forall2 (moved_by dx dy) (trimesh.vertices floor) (trimesh.vertices floor').
Proof.
  intros Ho. cbv zeta. split; [reflexivity|].
  do 4 eexists.
  split; [apply (wall_geometry_eq self ox oy grid Ho)|].
  split; [apply (wall_geometry_eq (with_origin _ self) (ox + dx) (oy + dy) grid
                   eq_refl)|].
  split; [apply (create_floor_mesh_eq self ox oy grid Ho)|].
  split; [apply (create_floor_mesh_eq (with_origin _ self) (ox + dx) (oy + dy)
                   grid eq_refl)|].
  cbn [vertices faces trimesh.vertices trimesh.faces with_origin resolution
       wall_height].
  split; [reflexivity|]. split; [reflexivity|]. split.
  - induction (wall_pixels grid) as [|p pixels IH]; [constructor|].
    rewrite !fmap_cons, !mjoin_cons. apply Forall2_app; [|exact IH].
    apply cuboid_moved.
  - unfold floor_vertices.
    repeat (apply Forall2_cons_2;
            [unfold moved_by, vec3_eq; cbn [vx vy vz]; repeat split; ring|]).
    apply Forall2_nil_2.
Qed.

Lemma origin_shift_translates_witness :
  exists st st',
    wall_geometry demo [[1; 0]; [1; 1]] = Ok st /\
    wall_geometry (with_origin [(0 + 3)%Q; (0 + 4)%Q] demo) [[1; 0]; [1; 1]]
    = Ok st' /\
    faces st' = faces st /\
    Forall2 (moved_by 3 4) (vertices st) (vertices st').
Proof.
  destruct (origin_shift_translates demo 0 0 3 4 [[1; 0]; [1; 1]] eq_refl)
    as (_ & st & st' & _ & _ & Hst & Hst' & _ & _ & Hf & _ & Hv & _).
  exists st, st'. repeat split; assumption.
Defined.

(** ** Witnesses for the classifier properties *)

Lemma occupancy_grid_shape_binary_witness :
  exists grid,
    load_and_process_map demo = Ok grid /\ length grid = 2%nat.
Proof.
  destruct (occupancy_grid_shape_binary demo [[0; 255]; [204; 140]] eq_refl)
    as (grid & Hload & Hlen & _).
  exists grid. split; [exact Hload | exact Hlen].
Defined.

Lemma darker_pixel_stays_occupied_witness :
  exists grid,
    load_and_process_map demo = Ok grid /\
    (np.item grid 1 0 = Some Occupied -> np.item grid 1 1 = Some Occupied).
Proof.
  destruct (darker_pixel_stays_occupied demo [[0; 255]; [204; 140]]
              1 1 1 0 140 204 eq_refl eq_refl eq_refl)
    as (grid & Hload & Hocc & _); [lia|].
  exists grid. split; [exact Hload | exact Hocc].
Defined.

(** ** Paths and exports *)

Lemma prefix_cons_ne (a b : ascii) (s1 s2 : string) :
  Ascii.eqb b a = false -> String.prefix (String a s1) (String b s2) = false.
Proof.
  intros Hne. cbn. destruct (ascii_dec a b) as [-> | _]; [|reflexivity].
  now rewrite Ascii.eqb_refl in Hne.
Qed.

Lemma replace_no_occurrence (old new s : string) :
  occurs old s = false -> str_replace old new s = s.
Proof.
  unfold str_replace. induction s as [|c rest IH]; [reflexivity|].
  cbn [occurs replace_from]. intros Hocc.
  apply orb_false_iff in Hocc as [Hpre Hrest].
  rewrite Hpre. f_equal. now apply IH.
Qed.

Lemma replace_obj_changes (s : string) :
  occurs ".obj" s = true -> str_replace ".obj" ".stl" s <> s.
Proof.
  unfold str_replace. induction s as [|c rest IH]; [discriminate|].
  cbn [occurs replace_from].
  destruct (String.prefix ".obj" (String c rest)) eqn:Hpre.
  - intros _. apply prefix_correct in Hpre. cbn [String.length] in Hpre.
    destruct rest as [|c1 rest]; [discriminate|].
    cbn in Hpre. injection Hpre as -> -> _.
    cbn. intros H. discriminate H.
  - cbn [orb]. intros Hocc H. injection H as H. now apply IH.
Qed.

Lemma contains_char_append (c : ascii) (a b : string) :
  contains_char c (a ++ b)%string = contains_char c a || contains_char c b.
Proof.
  induction a as [|x a IH]; [reflexivity|].
  cbn [String.append contains_char]. now rewrite IH, orb_assoc.
Qed.

Lemma replace_dot_free_obj (s : string) :
  contains_char "." s = false ->
  str_replace ".obj" ".stl" (s ++ ".obj")%string = (s ++ ".stl")%string.
Proof.
  unfold str_replace. induction s as [|c rest IH]; [reflexivity|].
  cbn [contains_char]. intros Hc. apply orb_false_iff in Hc as [Hc Hrest].
  cbn [String.append replace_from].
  rewrite (prefix_cons_ne "." c _ _ Hc). f_equal. now apply IH.
Qed.

Lemma basename_append (dir file : string) :
  contains_char "/" file = false ->
  basename (dir ++ "/" ++ file)%string = file.
Proof.
  intros Hfile. change ("/" ++ file)%string with (String "/" file).
  induction dir as [|c dir IH].
  - cbn. now rewrite Hfile.
  - cbn [String.append basename].
    assert (contains_char "/" (dir ++ String "/" file)%string = true) as ->.
    { rewrite contains_char_append. cbn. apply orb_true_r. }
    exact IH.
Qed.

Lemma rfind_from_absent (i : Z) (c : ascii) (s : string) (last : Z) :
  contains_char c s = false -> rfind_from i c s last = last.
Proof.
  revert i last. induction s as [|a s IH]; intros i last; [reflexivity|].
  cbn [contains_char rfind_from]. intros H.
  apply orb_false_iff in H as [Ha Hs]. rewrite Ha. now apply IH.
Qed.

Lemma rfind_from_append (i : Z) (c : ascii) (a b : string) (last : Z) :
  rfind_from i c (a ++ b)%string last
  = rfind_from (i + Z.of_nat (String.length a)) c b (rfind_from i c a last).
Proof.
  revert i last. induction a as [|x a IH]; intros i last.
  - cbn. now rewrite Z.add_0_r.
  - cbn [String.append rfind_from String.length]. rewrite IH. f_equal. lia.
Qed.

Lemma substring_append_l (a b : string) :
  String.substring 0 (String.length a) (a ++ b)%string = a.
Proof. induction a as [|x a IH]; cbn; [now destruct b | now rewrite IH]. Qed.

Lemma splitext_simple (name ext : string) (c : ascii) (rest : string) :
  name = String c rest ->
  contains_char "." name = false -> contains_char "/" name = false ->
  contains_char "." ext = false -> contains_char "/" ext = false ->
  (splitext (name ++ "." ++ ext)%string).1 = name.
Proof.
  intros Hname Hnd Hns Hed Hes. unfold splitext, rfind.
  assert (Hsep : rfind_from 0 "/" (name ++ "." ++ ext)%string (-1) = -1).
  { apply rfind_from_absent. rewrite !contains_char_append, Hns, Hes.
    reflexivity. }
  assert (Hdot : rfind_from 0 "." (name ++ "." ++ ext)%string (-1)
                 = Z.of_nat (String.length name)).
  { rewrite rfind_from_append, (rfind_from_absent 0 "." name _ Hnd).
    cbn [String.append rfind_from]. cbn [Ascii.eqb Bool.eqb andb].
    now rewrite rfind_from_absent by exact Hed. }
  rewrite Hsep, Hdot.
  assert ((-1 <? Z.of_nat (String.length name)) = true) as ->
    by (apply Z.ltb_lt; lia).
  replace (Z.to_nat (-1 + 1)) with 0%nat by lia.
  replace (Z.to_nat (Z.of_nat (String.length name) - -1 - 1))
    with (String.length name) by lia.
  rewrite Nat2Z.id, substring_append_l.
  assert (all_dots name = false) as ->.
  { subst name. cbn [contains_char all_dots] in *.
    apply orb_false_iff in Hnd as [-> _]. reflexivity. }
  reflexivity.
Qed.

Lemma string_append_assoc (a b c : string) :
  ((a ++ b) ++ c = a ++ (b ++ c))%string.
Proof. induction a as [|x a IH]; cbn; [reflexivity | now rewrite IH]. Qed.

(** X13: a successful conversion writes the same mesh twice, to the output
    path and to that path with every ".obj" replaced by ".stl"; the two
    paths coincide exactly when the output path contains no ".obj". *)
Theorem stl_path_of_export
    (remove_duplicate_faces fix_normals : trimesh.Trimesh -> trimesh.Trimesh)
    (env : environment) (self : Map3DConverter) (map_png_path p : string)
    (mesh : trimesh.Trimesh) :
  convert_to_3d remove_duplicate_faces fix_normals self = Ok mesh ->
  can_export env p = true ->
  can_export env (str_replace ".obj" ".stl" p) = true ->
  convert_to_3d_export remove_duplicate_faces fix_normals env self
                       map_png_path (Some p)
  = ([(p, mesh); (str_replace ".obj" ".stl" p, mesh)], inr p) /\
  (str_replace ".obj" ".stl" p = p <-> occurs ".obj" p = false).
Proof.
  intros Hconv Hobj Hstl. split.
  - unfold convert_to_3d_export. now rewrite Hconv, Hobj, Hstl.
  - split.
    + intros Heq. destruct (occurs ".obj" p) eqn:Hocc; [|reflexivity].
      exfalso. now apply (replace_obj_changes p Hocc).
    + apply replace_no_occurrence.
Qed.

Lemma stl_path_of_export_witness :
  convert_to_3d_export (fun m => m) (fun m => m) any_export all_free
                       "a.png" (Some "mesh.ply"%string)
  = ([("mesh.ply"%string,
       {| trimesh.vertices := floor_vertices 0 (0 + inject_Z 2 * 1)
                                             0 (0 + inject_Z 2 * 1);
          trimesh.faces := floor_faces |});
      (str_replace ".obj" ".stl" "mesh.ply",
       {| trimesh.vertices := floor_vertices 0 (0 + inject_Z 2 * 1)
                                             0 (0 + inject_Z 2 * 1);
          trimesh.faces := floor_faces |})], inr "mesh.ply"%string).
Proof.
  apply (stl_path_of_export (fun m => m) (fun m => m) any_export all_free
           "a.png" "mesh.ply"); reflexivity.
Defined.

(** X14: without an output path the mesh goes to [<stem>_3d.obj] and
    [<stem>_3d.stl], where [<stem>] is the image file name without directory
    and extension (for a stem and extension without dots). *)
Theorem default_output_name
    (remove_duplicate_faces fix_normals : trimesh.Trimesh -> trimesh.Trimesh)
    (env : environment) (self : Map3DConverter) (dir name ext : string)
    (c : ascii) (rest : string) (mesh : trimesh.Trimesh) :
  name = String c rest ->
  contains_char "." name = false -> contains_char "/" name = false ->
  contains_char "." ext = false -> contains_char "/" ext = false ->
  convert_to_3d remove_duplicate_faces fix_normals self = Ok mesh ->
  can_export env (name ++ "_3d.obj")%string = true ->
  can_export env (name ++ "_3d.stl")%string = true ->
  convert_to_3d_export remove_duplicate_faces fix_normals env self
                       (dir ++ "/" ++ name ++ "." ++ ext)%string None
  = ([((name ++ "_3d.obj")%string, mesh); ((name ++ "_3d.stl")%string, mesh)],
     inr (name ++ "_3d.obj")%string).
Proof.
  intros Hname Hnd Hns Hed Hes Hconv Hobj Hstl.
  unfold convert_to_3d_export.
  assert (Hfile : contains_char "/" (name ++ "." ++ ext)%string = false).
  { rewrite !contains_char_append, Hns, Hes. reflexivity. }
  rewrite (basename_append dir _ Hfile).
  rewrite (splitext_simple name ext c rest Hname Hnd Hns Hed Hes).
  assert (Hrep : str_replace ".obj" ".stl" (name ++ "_3d.obj")%string
                 = (name ++ "_3d.stl")%string).
  { change (name ++ "_3d.obj")%string with (name ++ ("_3d" ++ ".obj"))%string.
    change (name ++ "_3d.stl")%string with (name ++ ("_3d" ++ ".stl"))%string.
    rewrite <- !string_append_assoc. apply replace_dot_free_obj.
    now rewrite contains_char_append, Hnd. }
  now rewrite Hconv, Hobj, Hrep, Hstl.
Qed.

Lemma default_output_name_witness :
  convert_to_3d_export (fun m => m) (fun m => m) any_export all_free
    ("tracks/Austin" ++ "/" ++ "Austin_map" ++ "." ++ "png")%string None
  = ([(("Austin_map" ++ "_3d.obj")%string,
       {| trimesh.vertices := floor_vertices 0 (0 + inject_Z 2 * 1)
                                             0 (0 + inject_Z 2 * 1);
          trimesh.faces := floor_faces |});
      (("Austin_map" ++ "_3d.stl")%string,
       {| trimesh.vertices := floor_vertices 0 (0 + inject_Z 2 * 1)
                                             0 (0 + inject_Z 2 * 1);
          trimesh.faces := floor_faces |})],
     inr ("Austin_map" ++ "_3d.obj")%string).
Proof.
  apply (default_output_name (fun m => m) (fun m => m) any_export all_free
           "tracks/Austin" "Austin_map" "png" "A" "ustin_map");
    reflexivity.
Defined.

(** ** The command line *)

(** [main] in closed form. *)
Lemma main_unfold
    (remove_duplicate_faces fix_normals : trimesh.Trimesh -> trimesh.Trimesh)
    (env : environment) (args : arguments) :
  main remove_duplicate_faces fix_normals env args
  = if negb (path_exists env (map_png_of (track_name args)))
       || negb (path_exists env (map_yaml_of (track_name args)))
    then {| made_dirs := made_dirs_of args; written := [];
            ended := Returned 1 |}
    else match __init__ (cv2_imread env (map_png_of (track_name args)))
                        (yaml_safe_load env (map_yaml_of (track_name args)))
                        (height args) with
         | Raise e => {| made_dirs := made_dirs_of args; written := [];
                         ended := Uncaught e |}
         | Ok converter =>
             match convert_to_3d_export remove_duplicate_faces fix_normals
                     env converter (map_png_of (track_name args))
                     (Some (output_path_of args)) with
             | (files, inr _) =>
                 {| made_dirs := made_dirs_of args; written := files;
                    ended := Returned 0 |}
             | (files, inl _) =>
                 {| made_dirs := made_dirs_of args; written := files;
                    ended := Returned 1 |}
             end
         end.
Proof.
  unfold main, made_dirs_of, output_path_of, default_output_of,
    map_png_of, map_yaml_of, construct.
  destruct (output args) as [[|c rest]|];
    destruct (path_exists env _); cbn [negb orb]; try reflexivity;
    destruct (path_exists env _); cbn [negb orb]; reflexivity.
Qed.

Lemma init_raises_key_error (png : option (ndarray Z)) (md : map_metadata)
    (h : Q) (e : exn) :
  __init__ png md h = Raise e ->
  (md_resolution md = None /\ e = KeyError "resolution") \/
  (md_resolution md <> None /\ md_origin md = None /\ e = KeyError "origin").
Proof.
  unfold __init__. destruct (md_resolution md) as [r|]; cbn.
  - destruct (md_origin md) as [o|]; cbn; [discriminate|].
    intros [= <-]. right. repeat split. discriminate.
  - intros [= <-]. now left.
Qed.

Lemma export_cases
    (remove_duplicate_faces fix_normals : trimesh.Trimesh -> trimesh.Trimesh)
    (env : environment) (self : Map3DConverter) (png p : string) :
  let r := convert_to_3d_export remove_duplicate_faces fix_normals env self
             png (Some p) in
  (exists mesh,
      convert_to_3d remove_duplicate_faces fix_normals self = Ok mesh /\
      can_export env p = true /\
      can_export env (str_replace ".obj" ".stl" p) = true /\
      r = ([(p, mesh); (str_replace ".obj" ".stl" p, mesh)], inr p)) \/
  (exists mesh,
      convert_to_3d remove_duplicate_faces fix_normals self = Ok mesh /\
      can_export env p = true /\
      can_export env (str_replace ".obj" ".stl" p) = false /\
      r = ([(p, mesh)], inl ExportError)) \/
  (exists mesh,
      convert_to_3d remove_duplicate_faces fix_normals self = Ok mesh /\
      can_export env p = false /\ r = ([], inl ExportError)) \/
  (exists e,
      convert_to_3d remove_duplicate_faces fix_normals self = Raise e /\
      r = ([], inl (Core e))).
Proof.
  cbv zeta. unfold convert_to_3d_export.
  destruct (convert_to_3d _ _ self) as [mesh|e].
  - destruct (can_export env p) eqn:Hp.
    + destruct (can_export env (str_replace ".obj" ".stl" p)) eqn:Hs.
      * left. now exists mesh.
      * right. left. now exists mesh.
    + right. right. left. now exists mesh.
  - right. right. right. now exists e.
Qed.

(** X15: when the PNG or the YAML file is missing [main] returns 1 and writes
    no mesh, yet it has already created the default output directory when
    no output path was given. *)
Theorem main_missing_inputs
    (remove_duplicate_faces fix_normals : trimesh.Trimesh -> trimesh.Trimesh)
    (env : environment) (args : arguments) :
  path_exists env (map_png_of (track_name args)) = false \/
  path_exists env (map_yaml_of (track_name args)) = false ->
  let r := main remove_duplicate_faces fix_normals env args in
  ended r = Returned 1 /\ written r = [] /\
  (output args = None ->
   made_dirs r = [("output/" ++ track_name args)%string]) /\
  (forall c rest, output args = Some (String c rest) -> made_dirs r = []).
Proof.
  intros Hmiss. cbv zeta. rewrite main_unfold.
  assert ((negb (path_exists env (map_png_of (track_name args)))
           || negb (path_exists env (map_yaml_of (track_name args)))) = true)
    as ->.
  { destruct Hmiss as [-> | ->]; [reflexivity | apply orb_true_r]. }
  cbn [ended written made_dirs]. unfold made_dirs_of.
  repeat split; [now intros -> | now intros c rest ->].
Qed.

Lemma main_missing_inputs_witness :
  ended (main (fun m => m) (fun m => m)
           {| path_exists := fun _ => false;
              yaml_safe_load := fun _ => negative_resolution;
              cv2_imread := fun _ => None;
              can_export := fun _ => true |}
           {| track_name := "Austin"; height := 1; output := None |})
  = Returned 1.
Proof.
  apply (main_missing_inputs (fun m => m) (fun m => m)
           {| path_exists := fun _ => false;
              yaml_safe_load := fun _ => negative_resolution;
              cv2_imread := fun _ => None;
              can_export := fun _ => true |}
           {| track_name := "Austin"; height := 1; output := None |}).
  left. reflexivity.
Defined.



(** X17: an exception escapes [main] exactly when both input files exist and
    the metadata lacks [resolution] or [origin]: the [KeyError] of the
    constructor, which runs outside the [try] block.  Nothing is written
    then. *)
Theorem main_uncaught_iff
    (remove_duplicate_faces fix_normals : trimesh.Trimesh -> trimesh.Trimesh)
    (env : environment) (args : arguments) (e : exn) :
  let png := map_png_of (track_name args) in
  let yaml := map_yaml_of (track_name args) in
  let md := yaml_safe_load env yaml in
  let r := main remove_duplicate_faces fix_normals env args in
  (ended r = Uncaught e <->
   path_exists env png = true /\ path_exists env yaml = true /\
   ((md_resolution md = None /\ e = KeyError "resolution") \/
    (md_resolution md <> None /\ md_origin md = None /\ e = KeyError "origin")))
  /\ (ended r = Uncaught e -> written r = []).
Proof.
  cbv zeta. rewrite main_unfold.
  destruct (path_exists env (map_png_of (track_name args))) eqn:Hpng;
    cbn [negb orb].
  2:{ cbn. split; [|discriminate].
      split; [discriminate | intros (H & _); discriminate]. }
  destruct (path_exists env (map_yaml_of (track_name args))) eqn:Hyaml;
    cbn [negb].
  2:{ cbn. split; [|discriminate].
      split; [discriminate | intros (_ & H & _); discriminate]. }
  destruct (__init__ _ _ _) as [self|e'] eqn:Hinit.
  - assert (Hkeys : exists r o,
               md_resolution (yaml_safe_load env (map_yaml_of (track_name args)))
               = Some r /\
               md_origin (yaml_safe_load env (map_yaml_of (track_name args)))
               = Some o).
    { unfold __init__ in Hinit.
      destruct (md_resolution _) as [r|]; [|discriminate].
      destruct (md_origin _) as [o|]; [|discriminate]. now exists r, o. }
    destruct Hkeys as (r & o & Hr & Ho).
    destruct (convert_to_3d_export _ _ env self _ _) as [files [f|p]];
      cbn [ended written]; (split; [|discriminate]);
      (split; [discriminate|]);
      intros (_ & _ & [[H _] | (_ & H & _)]); congruence.
  - cbn [ended written]. split; [|reflexivity]. split.
    + intros [= <-]. repeat split. now apply (init_raises_key_error _ _ _ _ Hinit).
    + intros (_ & _ & Hcase). f_equal.
      destruct (init_raises_key_error _ _ _ _ Hinit)
        as [[H1 ->] | (H1 & H2 & ->)];
        destruct Hcase as [[H3 ->] | (H3 & H4 & ->)]; congruence.
Qed.

Lemma main_uncaught_iff_witness :
  ended (main (fun m => m) (fun m => m)
           {| path_exists := fun _ => true;
              yaml_safe_load := fun _ =>
                {| md_resolution := None; md_origin := None;
                   md_occupied_thresh := None; md_free_thresh := None |};
              cv2_imread := fun _ => Some [[0]];
              can_export := fun _ => true |}
           {| track_name := "Austin"; height := 1; output := None |})
  = Uncaught (KeyError "resolution").
Proof.
  apply (main_uncaught_iff (fun m => m) (fun m => m)
           {| path_exists := fun _ => true;
              yaml_safe_load := fun _ =>
                {| md_resolution := None; md_origin := None;
                   md_occupied_thresh := None; md_free_thresh := None |};
              cv2_imread := fun _ => Some [[0]];
              can_export := fun _ => true |}
           {| track_name := "Austin"; height := 1; output := None |}
           (KeyError "resolution")).
  split; [reflexivity|]. split; [reflexivity|]. left. split; reflexivity.
Defined.

(** X18: [main] writes a file only if both input files exist, the metadata
    holds [resolution] and an [origin] of at least two coordinates, the
    image is readable and the first export succeeds. *)
Theorem main_writes_need_valid_input
    (remove_duplicate_faces fix_normals : trimesh.Trimesh -> trimesh.Trimesh)
    (env : environment) (args : arguments) :
  let png := map_png_of (track_name args) in
  let yaml := map_yaml_of (track_name args) in
  let md := yaml_safe_load env yaml in
  written (main remove_duplicate_faces fix_normals env args) <> [] ->
  path_exists env png = true /\ path_exists env yaml = true /\
  (exists r, md_resolution md = Some r) /\
  (exists o, md_origin md = Some o /\ (2 <= length o)%nat) /\
  (exists map_img, cv2_imread env png = Some map_img) /\
  can_export env (output_path_of args) = true.
Proof.
  cbv zeta. rewrite main_unfold.
  destruct (path_exists env (map_png_of (track_name args))) eqn:Hpng;
    cbn [negb orb]; [|intros H; now elim H].
  destruct (path_exists env (map_yaml_of (track_name args))) eqn:Hyaml;
    cbn [negb]; [|intros H; now elim H].
  destruct (__init__ _ _ _) as [self|e'] eqn:Hinit; [|intros H; now elim H].
  unfold __init__ in Hinit.
  destruct (md_resolution _) as [r|] eqn:Hr; [|discriminate].
  destruct (md_origin _) as [o|] eqn:Ho; [|discriminate].
  cbn in Hinit. injection Hinit as <-.
  set (self := Build_Map3DConverter _ _ _ _ _ _).
  destruct (export_cases remove_duplicate_faces fix_normals env self
              (map_png_of (track_name args)) (output_path_of args))
    as [(mesh & Hc & Hout & Hs & ->) | [(mesh & Hc & Hout & Hs & ->)
       | [(mesh & Hc & Hout & ->) | (e & Hc & ->)]]];
    cbn [written]; intros Hw; try (now elim Hw);
    (split; [reflexivity|]); (split; [reflexivity|]);
    (split; [now exists r|]).
  all: assert (Himg : exists map_img,
                 cv2_imread env (map_png_of (track_name args)) = Some map_img)
         by (destruct (cv2_imread env (map_png_of (track_name args)))
               as [img|] eqn:Himg; [now exists img|];
             rewrite (convert_to_3d_unreadable _ _ self Himg) in Hc;
             discriminate).
  all: destruct Himg as (img & Himg).
  all: assert (Hlen : (2 <= length o)%nat)
         by (destruct (decide (length o < 2)%nat) as [Hshort|]; [|lia];
             rewrite (convert_to_3d_short_origin _ _ self img Himg) in Hc;
             [discriminate | cbn [origin self]; rewrite length_take; lia]).
  all: split; [now exists o|]; split; [now exists img | exact Hout].
Qed.

Lemma main_writes_need_valid_input_witness :
  can_export any_export
    (output_path_of {| track_name := "Austin"; height := 1; output := None |})
  = true.
Proof.
  apply (main_writes_need_valid_input (fun m => m) (fun m => m) any_export
           {| track_name := "Austin"; height := 1; output := None |}).
  vm_compute. discriminate.
Defined.

(** X19: for a track name without dots and no output path, a successful run
    writes [output/<track>/<track>_track_3d.obj] and the same path ending in
    [.stl], after creating [output/<track>]. *)
Theorem main_default_paths
    (remove_duplicate_faces fix_normals : trimesh.Trimesh -> trimesh.Trimesh)
    (env : environment) (args : arguments) :
  output args = None ->
  contains_char "." (track_name args) = false ->
  ended (main remove_duplicate_faces fix_normals env args) = Returned 0 ->
  let t := track_name args in
  exists mesh,
    written (main remove_duplicate_faces fix_normals env args)
    = [((("output/" ++ t) ++ "/" ++ t ++ "_track_3d" ++ ".obj")%string, mesh);
       ((("output/" ++ t) ++ "/" ++ t ++ "_track_3d" ++ ".stl")%string, mesh)]
    /\ made_dirs (main remove_duplicate_faces fix_normals env args)
       = [("output/" ++ t)%string].
Proof.
  intros Hout Hdot Hend. cbv zeta.
  assert (Hpath : output_path_of args
                  = ((("output/" ++ track_name args) ++ "/" ++ track_name args
                      ++ "_track_3d") ++ ".obj")%string).
  { unfold output_path_of, default_output_of. rewrite Hout.
    now rewrite !string_append_assoc. }
  assert (Hstl : str_replace ".obj" ".stl" (output_path_of args)
                 = ((("output/" ++ track_name args) ++ "/" ++ track_name args
                     ++ "_track_3d") ++ ".stl")%string).
  { rewrite Hpath. apply replace_dot_free_obj.
    rewrite !contains_char_append, Hdot. reflexivity. }
  rewrite main_unfold in Hend |- *.
  destruct (negb _ || negb _); [discriminate|].
  destruct (__init__ _ _ _) as [self|e]; [|discriminate].
  destruct (export_cases remove_duplicate_faces fix_normals env self
              (map_png_of (track_name args)) (output_path_of args))
    as [(mesh & Hc & Ho & Hs & Hr) | [(mesh & Hc & Ho & Hs & Hr)
       | [(mesh & Hc & Ho & Hr) | (e & Hc & Hr)]]];
    rewrite Hr in Hend |- *; cbn [ended written made_dirs] in Hend |- *;
    try discriminate.
  exists mesh. rewrite Hstl, Hpath. rewrite !string_append_assoc.
  split; [reflexivity|]. unfold made_dirs_of. now rewrite Hout.
Qed.

Lemma main_default_paths_witness :
  exists mesh,
    written (main (fun m => m) (fun m => m) any_export
               {| track_name := "Austin"; height := 1; output := None |})
    = [("output/Austin/Austin_track_3d.obj"%string, mesh);
       ("output/Austin/Austin_track_3d.stl"%string, mesh)]
    /\ made_dirs (main (fun m => m) (fun m => m) any_export
                    {| track_name := "Austin"; height := 1; output := None |})
       = ["output/Austin"%string].
Proof.
  apply (main_default_paths (fun m => m) (fun m => m) any_export
           {| track_name := "Austin"; height := 1; output := None |});
    reflexivity.
Defined.
